(** * Live sync, publish cycle and orphan cleanup of the Confluence plugin

    A shallow embedding of the scheduling and reconciliation core of
    [src/main.ts] (class [ConfluencePlugin]): the eligibility filter, the
    pending queue with its debounce timer, the drain filter on content
    hashes, the publish loop, the orphan sweep with its not-found
    classifier, the cleanup cooldown and the status bar.

    Conventions of the embedding.
    - JavaScript strings are [string]; numbers that the code only uses as
      integers (seconds, hours, epoch milliseconds) are [Z]; sizes are [nat].
    - A [Record<string,string>] is an association list in insertion order
      with one entry per key ([Object.entries] order for keys that are
      file paths); a [Set<string>] is a list in insertion order.
    - Settings fields have the types the interface
      [ObsidianPluginSettings] declares; only [lastOrphanCleanupTs] is
      optional there.
    - Notices, modals and console output are not part of the state.
    - An [async] method is cut at its [await]s: the code between two
      suspension points is one function, and the interleaving of several
      methods on the event loop is the machine at the end of the
      definitions.
    - The orphan sweep is embedded twice: in [Section Core] with
      [clearConfluencePageId] of the adaptor resolving, which is what
      the publish cycle and the event loop are built on, and in
      [Module Full] with every outcome of that call; where the call
      never rejects the two are the same sweep
      ([full_sweep_agrees]). *)

From Stdlib Require Import String Ascii List ZArith Bool Arith Lia DecimalString.
Import ListNotations.
Open Scope string_scope.
Open Scope bool_scope.

(** ** JavaScript strings *)

Module Js.

(** White space removed by [String.prototype.trim], on the ASCII range. *)
Definition isWhiteSpace (c : ascii) : bool :=
  let n := nat_of_ascii c in
  (n =? 32)%nat || ((9 <=? n)%nat && (n <=? 13)%nat).

Fixpoint trimStart (s : string) : string :=
  match s with
  | EmptyString => EmptyString
  | String c r => if isWhiteSpace c then trimStart r else s
  end.

(** Drops the longest suffix made of characters satisfying [p]. *)
Fixpoint dropTrailing (p : ascii -> bool) (s : string) : string :=
  match s with
  | EmptyString => EmptyString
  | String c r =>
      let r' := dropTrailing p r in
      if p c && (r' =? "") then EmptyString else String c r'
  end.

Definition trimEnd (s : string) : string := dropTrailing isWhiteSpace s.

Definition trim (s : string) : string := trimEnd (trimStart s).

(** [s.replace(/\/+$/, "")] *)
Definition stripTrailingSlashes (s : string) : string :=
  dropTrailing (fun c => Ascii.eqb c "/"%char) s.

(** [path.startsWith(p)] *)
Definition startsWith (s p : string) : bool := String.prefix p s.

(** [hay.includes(needle)] *)
Fixpoint includes (hay needle : string) : bool :=
  String.prefix needle hay ||
  match hay with
  | EmptyString => false
  | String _ r => includes r needle
  end.

Definition lowerChar (c : ascii) : ascii :=
  let n := nat_of_ascii c in
  if (65 <=? n)%nat && (n <=? 90)%nat then ascii_of_nat (n + 32) else c.

(** [s.toLowerCase()], on the ASCII range. *)
Fixpoint toLowerCase (s : string) : string :=
  match s with
  | EmptyString => EmptyString
  | String c r => String (lowerChar c) (toLowerCase r)
  end.

(** The one-character string holding a double quote. *)
Definition quote : string := String (ascii_of_nat 34) EmptyString.

(** A template literal's rendering of a natural number. *)
Definition showNat (n : nat) : string := NilZero.string_of_uint (Nat.to_uint n).

End Js.

(** ** Records keyed by strings, and sets of strings *)

Module Dict.

Definition t := list (string * string).

Definition keyIs (k : string) (e : string * string) : bool := fst e =? k.

(** [m[k]] *)
Fixpoint get (k : string) (m : t) : option string :=
  match m with
  | [] => None
  | (k', v) :: r => if k' =? k then Some v else get k r
  end.

(** [delete m[k]] *)
Definition remove (k : string) (m : t) : t :=
  filter (fun e => negb (keyIs k e)) m.

Fixpoint replace (k v : string) (m : t) : t :=
  match m with
  | [] => []
  | (k', v') :: r => if k' =? k then (k', v) :: r else (k', v') :: replace k v r
  end.

(** [m[k] = v]: an existing key keeps its place, a new one goes last. *)
Definition set (k v : string) (m : t) : t :=
  match get k m with
  | Some _ => replace k v m
  | None => (m ++ [(k, v)])%list
  end.

Definition keys (m : t) : list string := map fst m.

End Dict.

Module StrSet.

Definition t := list string.

Definition has (x : string) (q : t) : bool := existsb (String.eqb x) q.

Definition add (x : string) (q : t) : t := if has x q then q else (q ++ [x])%list.

Definition size (q : t) : nat := List.length q.

End StrSet.

(** ** Data model *)

Inductive Strategy := OnSave | Interval | Both.

Record Settings := {
  keyBacklink : string;
  folderToPublish : string;
  backlinkPublishState : Dict.t;
  liveSyncEnabled : bool;
  liveSyncDebounceSeconds : Z;
  liveSyncStrategy : Strategy;
  liveSyncIntervalMinutes : Z;
  orphanCleanupIntervalHours : Z;
  lastOrphanCleanupTs : option Z;
  liveSyncHashes : Dict.t
}.

Definition set_backlinkPublishState (m : Dict.t) (s : Settings) : Settings :=
  {| keyBacklink := keyBacklink s;
     folderToPublish := folderToPublish s;
     backlinkPublishState := m;
     liveSyncEnabled := liveSyncEnabled s;
     liveSyncDebounceSeconds := liveSyncDebounceSeconds s;
     liveSyncStrategy := liveSyncStrategy s;
     liveSyncIntervalMinutes := liveSyncIntervalMinutes s;
     orphanCleanupIntervalHours := orphanCleanupIntervalHours s;
     lastOrphanCleanupTs := lastOrphanCleanupTs s;
     liveSyncHashes := liveSyncHashes s |}.

Definition set_liveSyncHashes (m : Dict.t) (s : Settings) : Settings :=
  {| keyBacklink := keyBacklink s;
     folderToPublish := folderToPublish s;
     backlinkPublishState := backlinkPublishState s;
     liveSyncEnabled := liveSyncEnabled s;
     liveSyncDebounceSeconds := liveSyncDebounceSeconds s;
     liveSyncStrategy := liveSyncStrategy s;
     liveSyncIntervalMinutes := liveSyncIntervalMinutes s;
     orphanCleanupIntervalHours := orphanCleanupIntervalHours s;
     lastOrphanCleanupTs := lastOrphanCleanupTs s;
     liveSyncHashes := m |}.

Definition set_lastOrphanCleanupTs (t : Z) (s : Settings) : Settings :=
  {| keyBacklink := keyBacklink s;
     folderToPublish := folderToPublish s;
     backlinkPublishState := backlinkPublishState s;
     liveSyncEnabled := liveSyncEnabled s;
     liveSyncDebounceSeconds := liveSyncDebounceSeconds s;
     liveSyncStrategy := liveSyncStrategy s;
     liveSyncIntervalMinutes := liveSyncIntervalMinutes s;
     orphanCleanupIntervalHours := orphanCleanupIntervalHours s;
     lastOrphanCleanupTs := Some t;
     liveSyncHashes := liveSyncHashes s |}.

(** The fields of [ConfluencePlugin] that the core reads and writes.
    [liveSyncTimeout] holds the delay in milliseconds of the one armed
    debounce timer; [statusBarEl] holds the text of the status bar item,
    when there is one; [saveCount] counts the calls of [saveData]. *)
Record Plugin := {
  settings : Settings;
  isSyncing : bool;
  liveSyncQueue : StrSet.t;
  liveSyncTimeout : option Z;
  statusBarEl : option string;
  confluenceClient : bool;
  saveCount : nat
}.

Definition set_settings (x : Settings) (p : Plugin) : Plugin :=
  {| settings := x; isSyncing := isSyncing p; liveSyncQueue := liveSyncQueue p;
     liveSyncTimeout := liveSyncTimeout p; statusBarEl := statusBarEl p;
     confluenceClient := confluenceClient p; saveCount := saveCount p |}.

Definition set_isSyncing (x : bool) (p : Plugin) : Plugin :=
  {| settings := settings p; isSyncing := x; liveSyncQueue := liveSyncQueue p;
     liveSyncTimeout := liveSyncTimeout p; statusBarEl := statusBarEl p;
     confluenceClient := confluenceClient p; saveCount := saveCount p |}.

Definition set_liveSyncQueue (x : StrSet.t) (p : Plugin) : Plugin :=
  {| settings := settings p; isSyncing := isSyncing p; liveSyncQueue := x;
     liveSyncTimeout := liveSyncTimeout p; statusBarEl := statusBarEl p;
     confluenceClient := confluenceClient p; saveCount := saveCount p |}.

Definition set_liveSyncTimeout (x : option Z) (p : Plugin) : Plugin :=
  {| settings := settings p; isSyncing := isSyncing p; liveSyncQueue := liveSyncQueue p;
     liveSyncTimeout := x; statusBarEl := statusBarEl p;
     confluenceClient := confluenceClient p; saveCount := saveCount p |}.

Definition set_statusBarEl (x : option string) (p : Plugin) : Plugin :=
  {| settings := settings p; isSyncing := isSyncing p; liveSyncQueue := liveSyncQueue p;
     liveSyncTimeout := liveSyncTimeout p; statusBarEl := x;
     confluenceClient := confluenceClient p; saveCount := saveCount p |}.

(** [await this.saveData(this.settings)] *)
Definition saveData (p : Plugin) : Plugin :=
  {| settings := settings p; isSyncing := isSyncing p; liveSyncQueue := liveSyncQueue p;
     liveSyncTimeout := liveSyncTimeout p; statusBarEl := statusBarEl p;
     confluenceClient := confluenceClient p; saveCount := S (saveCount p) |}.

(** Vault entries: a [TFile] or another [TAbstractFile] (a folder). *)
Record TFile := { path : string; extension : string }.

Inductive TAbstractFile :=
| File (f : TFile)
| Folder (folderPath : string).

(** The link and embed targets of a note's metadata cache; either list
    may be missing. *)
Record CachedMetadata := {
  links : option (list string);
  embeds : option (list string)
}.

(** The part of [this.app] the core calls: the vault and the metadata
    cache. [read] is [None] when the promise of [vault.read] rejects. *)
Record App := {
  getAbstractFileByPath : string -> option TAbstractFile;
  read : TFile -> option string;
  getFileCache : TFile -> option CachedMetadata;
  getMarkdownFiles : list TFile
}.

(** The fields of a caught object that the not-found classifier looks
    at: [statusCode], [message], [body.statusCode], [response.status]
    and [response.data.statusCode], each possibly missing. *)
Record ErrorShape := {
  statusCode : option Z;
  message : option string;
  body_statusCode : option Z;
  response_status : option Z;
  response_data_statusCode : option Z
}.

(** Modelled from the spec: [HTTPError], the dedicated error kind of the
    remote client, whose class ([./MyBaseClient]) is not among the
    sources; it is an [Error] with a message and the status of its
    response, which is all [removeBacklinkOrphans] and
    [isConfluenceNotFound] read of it. The other values a [catch] can
    receive are a falsy value, a string, or another object, which is an
    [Error] or not. *)
Inductive Thrown :=
| Falsy
| Str (s : string)
| HTTPError (status : Z) (msg : string)
| Obj (instanceofError : bool) (shape : ErrorShape).

(** One element of the publisher's result: the file's path, the page id
    the publisher left on the node, and the upload result or the reason
    of the failure. *)
Record FileResult := {
  absoluteFilePath : string;
  pageId : string;
  successfulUploadResult : option string;
  reason : option string
}.

Record FailedFile := { fileName : string; failReason : string }.

Record UploadResults := {
  errorMessage : option string;
  failedFiles : list FailedFile;
  filesUploadResult : list string
}.

(** ** Collaborators

    What the core is given from outside [src/main.ts]: the link
    normalisation of [./backlinkUtils], the MD5 of spark-md5,
    [JSON.stringify], and the remote side behind the Confluence client,
    the adaptor and the publisher, as operations on an abstract world. A
    rejected promise is a [Thrown] value: [deleteContent] and [publish]
    may reject, and [saveData] is taken to resolve. So is, in the first
    embedding of the sweep, [clearConfluencePageId] of the adaptor
    ([./adaptors/obsidian], not among the sources); the module [Full]
    follows the sweep when that call rejects too. *)
Class Collaborators := {
  World : Type;
  normalizeBacklinkKey : string -> string;
  SparkMD5_hash : string -> string;
  JSON_stringify : Thrown -> string;
  deleteContent : World -> string -> World * option Thrown;
  clearConfluencePageId : World -> string -> World;
  publish : World -> option string -> World * (Thrown + list FileResult)
}.

(** ** Eligibility filter *)

Section Eligibility.
Context `{Collaborators}.

Definition getNormalizedBacklinkKey (s : Settings) : string :=
  normalizeBacklinkKey (keyBacklink s).

Definition linkMatches (normalizedNeedle link : string) : bool :=
  Js.toLowerCase (normalizeBacklinkKey link) =? normalizedNeedle.

Definition isFileEligibleForLiveSync (s : Settings) (app : App) (file : TFile) : bool :=
  let folderFilter := Js.trim (folderToPublish s) in
  let normalizedFolder := Js.stripTrailingSlashes folderFilter in
  let folderFilterActive := negb (normalizedFolder =? "") in
  let normalizedKey := getNormalizedBacklinkKey s in
  let backlinkFilterActive := negb (normalizedKey =? "") in
  let isInFolder :=
    if folderFilterActive
    then (path file =? normalizedFolder)
         || Js.startsWith (path file) (normalizedFolder ++ "/")
    else false in
  if folderFilterActive && isInFolder then true
  else if folderFilterActive && negb backlinkFilterActive then false
  else if negb folderFilterActive && negb backlinkFilterActive then true
  else if negb backlinkFilterActive then true
  else
    match getFileCache app file with
    | None => false
    | Some cache =>
        let normalizedNeedle := Js.toLowerCase normalizedKey in
        let matchesLinks :=
          match links cache with
          | Some ls => existsb (linkMatches normalizedNeedle) ls
          | None => false
          end in
        if matchesLinks then true
        else
          match embeds cache with
          | Some es => existsb (linkMatches normalizedNeedle) es
          | None => false
          end
    end.

Definition collectEligibleLiveSyncPaths (s : Settings) (app : App) : list string :=
  map path (filter (isFileEligibleForLiveSync s app) (getMarkdownFiles app)).

(** The rules of the specification, in its words and order; the link and
    embed targets are the ones extracted for the document. *)
Definition extractedLinks (app : App) (file : TFile) : list string :=
  match getFileCache app file with
  | Some cache => match links cache with Some ls => ls | None => [] end
  | None => []
  end.

Definition extractedEmbeds (app : App) (file : TFile) : list string :=
  match getFileCache app file with
  | Some cache => match embeds cache with Some es => es | None => [] end
  | None => []
  end.

Definition eligibleByRules (scopeFolder backlinkKey docPath : string)
    (linkTargets embedTargets : list string) : bool :=
  let folder := Js.stripTrailingSlashes scopeFolder in
  let folderConfigured := negb (folder =? "") in
  let key := normalizeBacklinkKey backlinkKey in
  let keyConfigured := negb (key =? "") in
  let inside := (docPath =? folder) || Js.startsWith docPath (folder ++ "/") in
  let sameAsKey target :=
    Js.toLowerCase (normalizeBacklinkKey target) =? Js.toLowerCase key in
  if folderConfigured && inside then true                         (* rule 1 *)
  else if folderConfigured && negb inside && negb keyConfigured then false (* rule 2 *)
  else if negb folderConfigured && negb keyConfigured then true   (* rule 3 *)
  else if negb keyConfigured then false                           (* rule 4 *)
  else existsb sameAsKey linkTargets || existsb sameAsKey embedTargets. (* rule 5 *)

End Eligibility.

(** ** Status bar, queue and debounce timer *)

Inductive BarState := idle | pending | syncing.

Definition statusLabel (state : BarState) (detail : option nat) : string :=
  let suffix :=
    match detail with
    | Some (S n) => " (" ++ Js.showNat (S n) ++ ")"
    | _ => ""
    end in
  match state with
  | pending => "Confluence: Pending" ++ suffix
  | syncing => "Confluence: Syncing" ++ suffix
  | idle => "Confluence: Idle"
  end.

Definition updateStatusBar (state : BarState) (detail : option nat) (p : Plugin) : Plugin :=
  match statusBarEl p with
  | None => p
  | Some _ => set_statusBarEl (Some (statusLabel state detail)) p
  end.

Definition shouldUseOnSaveSync (s : Settings) : bool :=
  if negb (liveSyncEnabled s) then false
  else match liveSyncStrategy s with
       | OnSave | Both => true
       | Interval => false
       end.

Definition shouldUseIntervalSync (s : Settings) : bool :=
  if negb (liveSyncEnabled s) then false
  else match liveSyncStrategy s with
       | Interval | Both => true
       | OnSave => false
       end.

Definition clearLiveSyncQueue (p : Plugin) : Plugin :=
  let p1 := set_liveSyncQueue [] p in
  let p2 := match liveSyncTimeout p1 with
            | Some _ => set_liveSyncTimeout None p1
            | None => p1
            end in
  if negb (isSyncing p2) then updateStatusBar idle None p2 else p2.

(** Any armed timer is cleared and a new one armed. *)
Definition scheduleLiveSync (delayOverride : option Z) (p : Plugin) : Plugin :=
  let seconds := match delayOverride with
                 | Some d => d
                 | None => liveSyncDebounceSeconds (settings p)
                 end in
  let delay := (Z.max 0 seconds * 1000)%Z in
  set_liveSyncTimeout (Some delay) p.

Section Core.
Context `{Collaborators}.

Definition onVaultFileModified (app : App) (file : TAbstractFile) (p : Plugin) : Plugin :=
  if negb (liveSyncEnabled (settings p)) || negb (shouldUseOnSaveSync (settings p)) then p
  else
    match file with
    | Folder _ => p
    | File f =>
        if negb (extension f =? "md") then p
        else if negb (isFileEligibleForLiveSync (settings p) app f) then p
        else
          let p1 := set_liveSyncQueue (StrSet.add (path f) (liveSyncQueue p)) p in
          let p2 := updateStatusBar pending (Some (StrSet.size (liveSyncQueue p1))) p1 in
          scheduleLiveSync None p2
    end.

(** ** Orphan sweep *)

Definition is404 (c : option Z) : bool :=
  match c with
  | Some n => (n =? 404)%Z
  | None => false
  end.

Definition hasNotFoundMarker (m : string) : bool :=
  Js.includes m "NotFoundException"
  || Js.includes m (Js.quote ++ "statusCode" ++ Js.quote ++ ":404").

Definition isConfluenceNotFound (error : Thrown) : bool :=
  match error with
  | Falsy => false
  | HTTPError status _ => (status =? 404)%Z
  | Str s =>
      if s =? "" then false else hasNotFoundMarker s
  | Obj _ e =>
      if is404 (statusCode e) then true
      else if is404 (body_statusCode e) then true
      else if is404 (response_status e) then true
      else if is404 (response_data_statusCode e) then true
      else match message e with
           | Some m => if m =? "" then false else hasNotFoundMarker m
           | None => false
           end
  end.

(** [error instanceof Error ? error.message : JSON.stringify(error)] *)
Definition failureReason (error : Thrown) : string :=
  match error with
  | HTTPError _ m => m
  | Obj true e => match message e with Some m => m | None => "" end
  | _ => JSON_stringify error
  end.

(** The variables of the loop of [removeBacklinkOrphans]. The last two
    fields are ghost logs: the calls of [deleteContent] with the path
    they were made for and their outcome ([None] when the promise
    resolved), and the paths given to [clearConfluencePageId]. *)
Record Sweep := {
  state : Dict.t;
  deletedPaths : list string;
  failedDeletions : list (string * string);
  mutated : bool;
  sweepWorld : World;
  deleteCalls : list (string * string * option Thrown);
  clearedPaths : list string
}.

Definition sweepStart (st : Dict.t) (w : World) : Sweep :=
  {| state := st; deletedPaths := []; failedDeletions := []; mutated := false;
     sweepWorld := w; deleteCalls := []; clearedPaths := [] |}.

(** What both the [try] after a resolved delete and the not-found branch
    of the [catch] do, the call of [clearConfluencePageId] resolving;
    [Full.dropAndClear] below has the call with its rejection. *)
Definition dropDeleted (path id : string) (out : option Thrown) (w : World) (a : Sweep) : Sweep :=
  {| state := Dict.remove path (state a);
     deletedPaths := deletedPaths a ++ [path];
     failedDeletions := failedDeletions a;
     mutated := true;
     sweepWorld := clearConfluencePageId w path;
     deleteCalls := deleteCalls a ++ [(path, id, out)];
     clearedPaths := clearedPaths a ++ [path] |}%list.

(** The loop body from the moment [deleteContent] settles with [out]:
    the rest of the [try], or the [catch]. *)
Definition settleDelete (path id : string) (out : option Thrown) (w : World) (a : Sweep) : Sweep :=
  match out with
  | None => dropDeleted path id None w a
  | Some error =>
      if isConfluenceNotFound error then dropDeleted path id (Some error) w a
      else
        {| state := state a;
           deletedPaths := deletedPaths a;
           failedDeletions := failedDeletions a ++ [(path, failureReason error)];
           mutated := mutated a;
           sweepWorld := w;
           deleteCalls := deleteCalls a ++ [(path, id, Some error)];
           clearedPaths := clearedPaths a |}%list
  end.

(** The body of [for (const [path, pageId] of staleEntries)]. *)
Definition sweepEntry (a : Sweep) (entry : string * string) : Sweep :=
  let '(path, id) := entry in
  if id =? "" then
    {| state := Dict.remove path (state a);
       deletedPaths := deletedPaths a;
       failedDeletions := failedDeletions a;
       mutated := true;
       sweepWorld := sweepWorld a;
       deleteCalls := deleteCalls a;
       clearedPaths := clearedPaths a |}
  else
    let '(w1, out) := deleteContent (sweepWorld a) id in
    settleDelete path id out w1 a.

Definition staleEntriesOf (st : Dict.t) (currentEligiblePaths : StrSet.t) : list (string * string) :=
  filter (fun e => negb (StrSet.has (fst e) currentEligiblePaths)) st.

Definition removeBacklinkOrphans (currentEligiblePaths : StrSet.t) (p : Plugin) (w : World)
  : Plugin * Sweep :=
  let st := backlinkPublishState (settings p) in
  let staleEntries := staleEntriesOf st currentEligiblePaths in
  match staleEntries with
  | [] => (p, sweepStart st w)
  | _ :: _ =>
      if negb (confluenceClient p) then (p, sweepStart st w)
      else
        let a := fold_left sweepEntry staleEntries (sweepStart st w) in
        let p1 := set_settings (set_backlinkPublishState (state a) (settings p)) p in
        (if mutated a then saveData p1 else p1, a)
  end.

(** ** Cleanup cooldown *)

Definition cleanupIntervalMs (s : Settings) : Z :=
  (Z.max 1 (orphanCleanupIntervalHours s) * 60 * 60 * 1000)%Z.

Definition lastCleanup (s : Settings) : Z :=
  match lastOrphanCleanupTs s with
  | Some t => t
  | None => 0%Z
  end.

(** [now] is the value of [Date.now()]. The third component is the sweep
    that was run, [None] when the cooldown stopped the call. *)
Definition maybeRunOrphanCleanup (force : bool) (now : Z) (app : App) (p : Plugin) (w : World)
  : Plugin * World * option Sweep :=
  let intervalMs := cleanupIntervalMs (settings p) in
  let last := lastCleanup (settings p) in
  if negb force && (now - last <? intervalMs)%Z then (p, w, None)
  else
    let eligiblePaths := collectEligibleLiveSyncPaths (settings p) app in
    let '(p1, stats) := removeBacklinkOrphans eligiblePaths p w in
    let p2 := set_settings (set_lastOrphanCleanupTs now (settings p1)) p1 in
    (saveData p2, sweepWorld stats, Some stats).

Definition runOrphanCleanupNow (now : Z) (app : App) (p : Plugin) (w : World)
  : Plugin * World * option Sweep :=
  maybeRunOrphanCleanup true now app p w.

End Core.

(** ** Publish cycle *)

Section Publish.
Context `{Collaborators}.

(** [Boolean(publishFilter)] *)
Definition truthyFilter (publishFilter : option string) : bool :=
  match publishFilter with
  | Some f => negb (f =? "")
  | None => false
  end.

(** The body of the loop of [updateBacklinkState], on the state and the
    [mutated] flag. *)
Definition backlinkEntry (acc : Dict.t * bool) (result : FileResult) : Dict.t * bool :=
  let '(st, mut) := acc in
  let path := absoluteFilePath result in
  let id := pageId result in
  if negb (id =? "") then
    match Dict.get path st with
    | Some old => if old =? id then (st, mut) else (Dict.set path id st, true)
    | None => (Dict.set path id st, true)
    end
  else
    match Dict.get path st with
    | Some old => if old =? "" then (st, mut) else (Dict.remove path st, true)
    | None => (st, mut)
    end.

Definition updateBacklinkState (results : list FileResult) (p : Plugin) : Plugin :=
  let '(st, mut) := fold_left backlinkEntry results (backlinkPublishState (settings p), false) in
  let p1 := set_settings (set_backlinkPublishState st (settings p)) p in
  if mut then saveData p1 else p1.

(** The body of [adrFiles.forEach] in [doPublish]. *)
Definition collectResult (r : UploadResults) (element : FileResult) : UploadResults :=
  match successfulUploadResult element with
  | Some u =>
      {| errorMessage := errorMessage r;
         failedFiles := failedFiles r;
         filesUploadResult := filesUploadResult r ++ [u] |}%list
  | None =>
      {| errorMessage := errorMessage r;
         failedFiles :=
           failedFiles r ++
           [{| fileName := absoluteFilePath element;
               failReason := match reason element with
                             | Some x => x
                             | None => "No Reason Provided"
                             end |}];
         filesUploadResult := filesUploadResult r |}%list
  end.

(** [doPublish] after [await this.publisher.publish(publishFilter)] has
    resolved with [adrFiles]. *)
Definition doPublishResume (publishFilter : option string) (skipCleanup : option bool)
    (adrFiles : list FileResult) (p : Plugin) (w : World) : Plugin * World * UploadResults :=
  let shouldCleanup :=
    negb (match skipCleanup with
          | Some b => b
          | None => truthyFilter publishFilter
          end) in
  let '(p1, w1) :=
    if shouldCleanup then
      let eligiblePaths := map absoluteFilePath adrFiles in
      let '(p', stats) := removeBacklinkOrphans eligiblePaths p w in
      (p', sweepWorld stats)
    else (p, w) in
  let p2 := updateBacklinkState adrFiles p1 in
  let returnVal :=
    fold_left collectResult adrFiles
      {| errorMessage := None; failedFiles := []; filesUploadResult := [] |} in
  (p2, w1, returnVal).

(** [doPublish] run without interruption; [inl] is a rejection. *)
Definition doPublish (publishFilter : option string) (skipCleanup : option bool)
    (p : Plugin) (w : World) : Plugin * World * (Thrown + UploadResults) :=
  let '(w1, r) := publish w publishFilter in
  match r with
  | inl error => (p, w1, inl error)
  | inr adrFiles =>
      let '(p2, w2, returnVal) := doPublishResume publishFilter skipCleanup adrFiles p w1 in
      (p2, w2, inr returnVal)
  end.

(** The ribbon icon and the commands "publish-current" and "publish-all",
    run without interruption: guarded by [isSyncing], which they set
    around [doPublish] and reset in [finally]. *)
Definition manualPublish (publishFilter : option string) (p : Plugin) (w : World) : Plugin * World :=
  if isSyncing p then (p, w)
  else
    let '(p1, w1, _) := doPublish publishFilter None (set_isSyncing true p) w in
    (set_isSyncing false p1, w1).

(** ** Drain filter *)

Record Target := { targetPath : string; targetHash : string }.

Definition computeFileHash (app : App) (path : string) : option string :=
  match getAbstractFileByPath app path with
  | Some (File file) =>
      match read app file with
      | Some contents => Some (SparkMD5_hash contents)
      | None => None
      end
  | _ => None
  end.

Definition sameHash (stored : option string) (currentHash : string) : bool :=
  match stored with
  | Some h => h =? currentHash
  | None => false
  end.

(** The body of [for (const path of queuedPaths)], given the value
    [await this.computeFileHash(path)] produced. *)
Definition targetStep (hashes : Dict.t) (path : string) (currentHash : option string)
    (targets : list Target) : list Target :=
  match currentHash with
  | None => targets
  | Some h =>
      if h =? "" then targets
      else if sameHash (Dict.get path hashes) h then targets
      else (targets ++ [{| targetPath := path; targetHash := h |}])%list
  end.

(** The whole loop, over an unchanged vault and hash table. *)
Definition drainTargets (app : App) (hashes : Dict.t) (queuedPaths : list string) : list Target :=
  fold_left (fun targets path => targetStep hashes path (computeFileHash app path) targets)
    queuedPaths [].

(** ** Publish loop of the flush *)

(** The inner [try]/[catch] around [doPublish(target.path, {skipCleanup:
    true})], given how [doPublish] ended. *)
Definition afterPublish (target : Target) (outcome : Thrown + UploadResults)
    (p : Plugin) (hashesUpdated : bool) : Plugin * bool :=
  match outcome with
  | inr result =>
      match failedFiles result with
      | [] =>
          let hashes := Dict.set (targetPath target) (targetHash target)
                          (liveSyncHashes (settings p)) in
          (set_settings (set_liveSyncHashes hashes (settings p)) p, true)
      | _ :: _ => (p, hashesUpdated)
      end
  | inl _ => (p, hashesUpdated)
  end.

Definition publishSucceeded (outcome : Thrown + UploadResults) : bool :=
  match outcome with
  | inr result => match failedFiles result with [] => true | _ :: _ => false end
  | inl _ => false
  end.

(** The variables of [for (const target of targets)]; [attempts] is a
    ghost log of the targets with the outcome of their [doPublish]. *)
Record PublishLoop := {
  loopPlugin : Plugin;
  loopWorld : World;
  hashesUpdated : bool;
  attempts : list (Target * bool)
}.

Definition publishTarget (l : PublishLoop) (target : Target) : PublishLoop :=
  let '(p1, w1, outcome) :=
    doPublish (Some (targetPath target)) (Some true) (loopPlugin l) (loopWorld l) in
  let '(p2, upd) := afterPublish target outcome p1 (hashesUpdated l) in
  {| loopPlugin := p2; loopWorld := w1; hashesUpdated := upd;
     attempts := (attempts l ++ [(target, publishSucceeded outcome)])%list |}.

Definition publishTargets (targets : list Target) (p : Plugin) (w : World) : PublishLoop :=
  fold_left publishTarget targets
    {| loopPlugin := p; loopWorld := w; hashesUpdated := false; attempts := [] |}.

(** ** The flush, cut at its suspension points *)

(** A suspended [async] call: a flush waiting for [computeFileHash] of
    [hashing], a flush waiting for the publisher inside
    [doPublish(publishing.path)], or a ribbon or command publish waiting
    for the publisher inside [doPublish(manualFilter)]. *)
Inductive Task :=
| FlushHashing (hashing : string) (rest : list string) (targets : list Target)
| FlushPublishing (publishing : Target) (rest : list Target) (hashesUpdated : bool)
| ManualPublishing (manualFilter : option string).

(** From the entry of [flushLiveSyncQueue] to its first
    [await this.computeFileHash], or to its return. *)
Definition flushStart (now : Z) (app : App) (p : Plugin) (w : World)
  : Plugin * World * option Task :=
  if negb (liveSyncEnabled (settings p)) then (clearLiveSyncQueue p, w, None)
  else
    match liveSyncQueue p with
    | [] =>
        let '(p1, w1, _) := maybeRunOrphanCleanup false now app p w in
        (if negb (isSyncing p1) then updateStatusBar idle None p1 else p1, w1, None)
    | first :: rest =>
        if isSyncing p then (scheduleLiveSync None p, w, None)
        else (set_liveSyncQueue [] p, w, Some (FlushHashing first rest []))
    end.

(** From the end of one [await this.computeFileHash(path)] to the next
    one, or through the end of the loop to the first [doPublish], or to
    the return when no target is left. *)
Definition flushAfterHash (now : Z) (app : App) (path : string) (rest : list string)
    (targets : list Target) (currentHash : option string) (p : Plugin) (w : World)
  : Plugin * World * option Task :=
  let targets1 := targetStep (liveSyncHashes (settings p)) path currentHash targets in
  match rest with
  | next :: rest1 => (p, w, Some (FlushHashing next rest1 targets1))
  | [] =>
      match targets1 with
      | [] =>
          let '(p1, w1, _) := maybeRunOrphanCleanup false now app p w in
          (updateStatusBar idle None p1, w1, None)
      | target :: others =>
          let p1 := set_isSyncing true p in
          let p2 := updateStatusBar syncing (Some (List.length targets1)) p1 in
          (p2, w, Some (FlushPublishing target others false))
      end
  end.

(** The end of the outer [try] and its [finally]. *)
Definition flushFinish (now : Z) (app : App) (hashesUpdated : bool) (p : Plugin) (w : World)
  : Plugin * World :=
  let p1 := if hashesUpdated then saveData p else p in
  let p2 := set_isSyncing false p1 in
  let p3 := match liveSyncQueue p2 with
            | [] => updateStatusBar idle None p2
            | _ :: _ => p2
            end in
  let '(p4, w4, _) := maybeRunOrphanCleanup false now app p3 w in
  (p4, w4).

(** From the moment the publisher settles inside [doPublish(target.path)]
    to the next [doPublish], or to the end of the flush. *)
Definition flushAfterPublish (now : Z) (app : App) (target : Target) (rest : list Target)
    (hashesUpdated : bool) (settled : Thrown + list FileResult) (p : Plugin) (w : World)
  : Plugin * World * option Task :=
  let '(p1, w1, outcome) :=
    match settled with
    | inl error => (p, w, inl error)
    | inr adrFiles =>
        let '(p', w', returnVal) :=
          doPublishResume (Some (targetPath target)) (Some true) adrFiles p w in
        (p', w', inr returnVal)
    end in
  let '(p2, upd) := afterPublish target outcome p1 hashesUpdated in
  match rest with
  | next :: rest1 => (p2, w1, Some (FlushPublishing next rest1 upd))
  | [] =>
      let '(p3, w3) := flushFinish now app upd p2 w1 in
      (p3, w3, None)
  end.

(** A ribbon or command publish from the moment the publisher settles. *)
Definition manualAfterPublish (publishFilter : option string)
    (settled : Thrown + list FileResult) (p : Plugin) (w : World) : Plugin * World :=
  match settled with
  | inl _ => (set_isSyncing false p, w)
  | inr adrFiles =>
      let '(p1, w1, _) := doPublishResume publishFilter None adrFiles p w in
      (set_isSyncing false p1, w1)
  end.

End Publish.

(** ** The event loop

    The plugin, the world and the suspended calls. An event either runs
    a handler up to its first suspension, or settles the promise a
    suspended call waits for and runs that call up to its next
    suspension. The events are those of the save path and of the manual
    publishes; what a call does between the settling of the publisher
    and its next [await] of the publisher runs as one step. *)

Section EventLoop.
Context `{Collaborators}.

Record Machine := {
  plugin : Plugin;
  world : World;
  tasks : list Task
}.

Inductive Event :=
| Modify (file : TAbstractFile)
| DebounceTimer (now : Z)
| RibbonClick
| PublishCurrent (activeLeafPath : option string)
| PublishAll
| Settle (i : nat) (now : Z).

Definition spawn (t : option Task) (ts : list Task) : list Task :=
  match t with
  | Some x => ts ++ [x]
  | None => ts
  end%list.

(** Task [i] goes on as [t], or ends. *)
Fixpoint continue (i : nat) (t : option Task) (ts : list Task) : list Task :=
  match ts, i with
  | [], _ => []
  | _ :: r, O => match t with Some x => x :: r | None => r end
  | x :: r, S j => x :: continue j t r
  end.

Definition startManual (publishFilter : option string) (m : Machine) : Machine :=
  if isSyncing (plugin m) then m
  else {| plugin := set_isSyncing true (plugin m);
          world := world m;
          tasks := spawn (Some (ManualPublishing publishFilter)) (tasks m) |}.

Definition step (app : App) (m : Machine) (e : Event) : option Machine :=
  match e with
  | Modify file =>
      Some {| plugin := onVaultFileModified app file (plugin m);
              world := world m; tasks := tasks m |}
  | DebounceTimer now =>
      match liveSyncTimeout (plugin m) with
      | None => None
      | Some _ =>
          let p0 := set_liveSyncTimeout None (plugin m) in
          let '(p1, w1, t) := flushStart now app p0 (world m) in
          Some {| plugin := p1; world := w1; tasks := spawn t (tasks m) |}
      end
  | RibbonClick => Some (startManual None m)
  | PublishCurrent activeLeafPath => Some (startManual activeLeafPath m)
  | PublishAll => Some (startManual None m)
  | Settle i now =>
      match nth_error (tasks m) i with
      | None => None
      | Some (FlushHashing path rest targets) =>
          let '(p1, w1, t) :=
            flushAfterHash now app path rest targets (computeFileHash app path)
              (plugin m) (world m) in
          Some {| plugin := p1; world := w1; tasks := continue i t (tasks m) |}
      | Some (FlushPublishing target rest upd) =>
          let '(w0, settled) := publish (world m) (Some (targetPath target)) in
          let '(p1, w1, t) :=
            flushAfterPublish now app target rest upd settled (plugin m) w0 in
          Some {| plugin := p1; world := w1; tasks := continue i t (tasks m) |}
      | Some (ManualPublishing publishFilter) =>
          let '(w0, settled) := publish (world m) publishFilter in
          let '(p1, w1) := manualAfterPublish publishFilter settled (plugin m) w0 in
          Some {| plugin := p1; world := w1; tasks := continue i None (tasks m) |}
      end
  end.

Fixpoint run (app : App) (m : Machine) (events : list Event) : option Machine :=
  match events with
  | [] => Some m
  | e :: r =>
      match step app m e with
      | Some m1 => run app m1 r
      | None => None
      end
  end.

(** The suspended calls that are inside [publisher.publish]. *)
Definition awaitsPublisher (t : Task) : bool :=
  match t with
  | FlushHashing _ _ _ => false
  | FlushPublishing _ _ _ => true
  | ManualPublishing _ => true
  end.

Definition publishInFlight (m : Machine) : nat :=
  List.length (filter awaitsPublisher (tasks m)).

End EventLoop.

(** ** Vocabulary of the statements *)

Section Vocabulary.
Context `{Collaborators}.

(** A stale entry with a remote id to delete. *)
Definition hasPageId (entry : string * string) : bool := negb (snd entry =? "").

(** The delete resolved, or was rejected with a not-found error. *)
Definition treatedAsDeleted (out : option Thrown) : bool :=
  match out with
  | None => true
  | Some error => isConfluenceNotFound error
  end.

Definition callPath (c : string * string * option Thrown) : string := fst (fst c).

(** The fields of a sweep that are not ghost logs. *)
Definition sweepOutcome (a : Sweep) :=
  (state a, deletedPaths a, failedDeletions a, mutated a, sweepWorld a).

(** A queued path is published by the drain when its content can be
    read and its fingerprint is not the stored one. *)
Definition publishable (app : App) (hashes : Dict.t) (path : string) : bool :=
  match computeFileHash app path with
  | Some h => negb (h =? "") && negb (sameHash (Dict.get path hashes) h)
  | None => false
  end.

Definition sweepsRun (r : option Sweep) : nat :=
  match r with
  | Some _ => 1
  | None => 0
  end.

(** Two non-forced calls of the cleanup trigger at times [t1] and [t2],
    the second entered after the first has returned: the number of
    sweeps they ran. *)
Definition sweepsOfConsecutiveCalls (t1 t2 : Z) (app1 app2 : App) (p : Plugin) (w : World) : nat :=
  let '(p1, w1, r1) := maybeRunOrphanCleanup false t1 app1 p w in
  let '(_, _, r2) := maybeRunOrphanCleanup false t2 app2 p1 w1 in
  sweepsRun r1 + sweepsRun r2.

(** The invariant of the sweep loop after the entries [done], started
    from the backlink state [st0]. *)
Definition SweepInv (st0 : Dict.t) (done : list (string * string)) (a : Sweep) : Prop :=
  map fst (deleteCalls a) = filter hasPageId done
  /\ (forall k, ~ In k (map fst done) -> Dict.get k (state a) = Dict.get k st0)
  /\ (forall path id out, In (path, id, out) (deleteCalls a) ->
        treatedAsDeleted out = true ->
        Dict.get path (state a) = None
        /\ In path (deletedPaths a) /\ In path (clearedPaths a))
  /\ (forall path id error, In (path, id, Some error) (deleteCalls a) ->
        isConfluenceNotFound error = false ->
        In (path, failureReason error) (failedDeletions a))
  /\ (forall k, In k (deletedPaths a) ->
        exists id out, In (k, id, out) (deleteCalls a) /\ treatedAsDeleted out = true)
  /\ (forall k r, In (k, r) (failedDeletions a) ->
        exists id error, In (k, id, Some error) (deleteCalls a)
                         /\ isConfluenceNotFound error = false)
  /\ (NoDup (map fst done) ->
      forall path id error, In (path, id, Some error) (deleteCalls a) ->
        isConfluenceNotFound error = false ->
        Dict.get path (state a) = Dict.get path st0).

(** The invariant of the publish loop after the targets [done], started
    from the hash table [hashes0]. *)
Definition PublishInv (hashes0 : Dict.t) (done : list Target) (l : PublishLoop) : Prop :=
  let hashes := liveSyncHashes (settings (loopPlugin l)) in
  map fst (attempts l) = done
  /\ (forall path, ~ In path (map targetPath done) -> Dict.get path hashes = Dict.get path hashes0)
  /\ (NoDup (map targetPath done) ->
      forall t ok, In (t, ok) (attempts l) ->
        Dict.get (targetPath t) hashes
        = if ok then Some (targetHash t) else Dict.get (targetPath t) hashes0).

End Vocabulary.

(** ** A small vault and remote to run the definitions on *)

Module Demo.

Definition noShape : ErrorShape :=
  {| statusCode := None; message := None; body_statusCode := None;
     response_status := None; response_data_statusCode := None |}.

(** Deleting page "gone" is answered 404, deleting page "locked" fails
    with an [Error], every other delete succeeds; publishing a path
    uploads that one file, publishing everything uploads [Docs/a.md]. *)
Definition remote : Collaborators :=
  {| World := unit;
     normalizeBacklinkKey := fun key => key;
     SparkMD5_hash := fun contents => "md5:" ++ contents;
     JSON_stringify := fun _ => "{}";
     deleteContent := fun w id =>
       (w, if id =? "gone" then Some (HTTPError 404 "no such page")
           else if id =? "locked"
                then Some (Obj true {| statusCode := None; message := Some "Forbidden";
                                       body_statusCode := None; response_status := None;
                                       response_data_statusCode := None |})
                else None);
     clearConfluencePageId := fun w _ => w;
     publish := fun w publishFilter =>
       (w, inr match publishFilter with
               | Some p => [{| absoluteFilePath := p; pageId := "1";
                               successfulUploadResult := Some "uploaded";
                               reason := None |}]
               | None => [{| absoluteFilePath := "Docs/a.md"; pageId := "1";
                             successfulUploadResult := Some "uploaded";
                             reason := None |}]
               end) |}.

Definition a_md : TFile := {| path := "Docs/a.md"; extension := "md" |}.
Definition b_md : TFile := {| path := "Docs/b.md"; extension := "md" |}.
Definition c_md : TFile := {| path := "Other/c.md"; extension := "md" |}.

(** [Docs/a.md] and [Docs/b.md] can be read; [Other/c.md] links to the
    key but cannot be read. *)
Definition app : App :=
  {| getAbstractFileByPath := fun p =>
       if p =? "Docs/a.md" then Some (File a_md)
       else if p =? "Docs/b.md" then Some (File b_md)
       else if p =? "Other/c.md" then Some (File c_md)
       else if p =? "Docs" then Some (Folder "Docs")
       else None;
     read := fun f =>
       if path f =? "Docs/a.md" then Some "alpha"
       else if path f =? "Docs/b.md" then Some "beta"
       else None;
     getFileCache := fun f =>
       if path f =? "Other/c.md"
       then Some {| links := Some ["Atlassian"]; embeds := None |}
       else None;
     getMarkdownFiles := [a_md; b_md; c_md] |}.

Definition config : Settings :=
  {| keyBacklink := "atlassian";
     folderToPublish := "Docs/";
     backlinkPublishState := [];
     liveSyncEnabled := true;
     liveSyncDebounceSeconds := 5;
     liveSyncStrategy := OnSave;
     liveSyncIntervalMinutes := 30;
     orphanCleanupIntervalHours := 24;
     lastOrphanCleanupTs := Some 0%Z;
     liveSyncHashes := [] |}.

Definition started : Plugin :=
  {| settings := config; isSyncing := false; liveSyncQueue := [];
     liveSyncTimeout := None; statusBarEl := Some "Confluence: Idle";
     confluenceClient := true; saveCount := 0 |}.

Definition machine : Machine :=
  @Build_Machine remote started tt [].



(** A note is saved and its flush reaches the publisher; a second note
    is saved meanwhile. *)
Definition saveWhileSyncing : list Event :=
  [Modify (File a_md); DebounceTimer 1000; Settle 0 1000; Modify (File b_md)].


(** A publish is running and a path is queued, live sync being on. *)
Definition busy : Plugin :=
  {| settings := config; isSyncing := true; liveSyncQueue := ["Docs/a.md"];
     liveSyncTimeout := None; statusBarEl := Some "Confluence: Syncing (1)";
     confluenceClient := true; saveCount := 0 |}.


Definition stalePages : Plugin :=
  set_settings
    (set_backlinkPublishState
       [("Docs/a.md", "7"); ("Old/x.md", "gone"); ("Old/y.md", "locked"); ("Old/z.md", "9")]
       config) started.

End Demo.

(** ** Settings as saved and loaded

    [loadData] resolves to the object [saveData] wrote, or to [null]; a
    property of that object is absent, [null], or has a value. *)

Inductive Loaded (A : Type) :=
| Absent
| Null
| Value (a : A).

Arguments Absent {A}.
Arguments Null {A}.
Arguments Value {A} a.

Record SavedData := {
  saved_keyBacklink : Loaded string;
  saved_folderToPublish : Loaded string;
  saved_backlinkPublishState : Loaded Dict.t;
  saved_liveSyncEnabled : Loaded bool;
  saved_liveSyncDebounceSeconds : Loaded Z;
  saved_liveSyncStrategy : Loaded Strategy;
  saved_liveSyncIntervalMinutes : Loaded Z;
  saved_orphanCleanupIntervalHours : Loaded Z;
  saved_lastOrphanCleanupTs : Loaded Z;
  saved_liveSyncHashes : Loaded Dict.t
}.

Definition loadedField {A : Type} (data : option SavedData) (field : SavedData -> Loaded A)
  : Loaded A :=
  match data with
  | Some d => field d
  | None => Absent
  end.

(** The property after [Object.assign({}, defaults, data)]: the default
    when the data does not have it, else what the data has ([None] for
    [null] and for a default that is missing too). *)
Definition assigned {A : Type} (default : option A) (loaded : Loaded A) : option A :=
  match loaded with
  | Absent => default
  | Null => None
  | Value a => Some a
  end.

(** [x ?? d] *)
Definition orDefault {A : Type} (x : option A) (d : A) : A :=
  match x with
  | Some a => a
  | None => d
  end.

(** [loadSettings]. [libraryDefaultFolder] is the [folderToPublish] of
    the library's [DEFAULT_SETTINGS], which is not among the sources. *)
Definition loadSettings (libraryDefaultFolder : option string) (data : option SavedData)
  : Settings :=
  {| keyBacklink :=
       orDefault (assigned (Some "") (loadedField data saved_keyBacklink)) "";
     folderToPublish :=
       match assigned libraryDefaultFolder (loadedField data saved_folderToPublish) with
       | Some folder => Js.trim folder
       | None => ""
       end;
     backlinkPublishState :=
       orDefault (assigned (Some []) (loadedField data saved_backlinkPublishState)) [];
     liveSyncEnabled :=
       orDefault (assigned (Some false) (loadedField data saved_liveSyncEnabled)) false;
     liveSyncDebounceSeconds :=
       orDefault (assigned (Some 5%Z) (loadedField data saved_liveSyncDebounceSeconds)) 5%Z;
     liveSyncStrategy :=
       orDefault (assigned (Some OnSave) (loadedField data saved_liveSyncStrategy)) OnSave;
     liveSyncIntervalMinutes :=
       Z.max 1
         (orDefault (assigned (Some 30%Z) (loadedField data saved_liveSyncIntervalMinutes))
            30%Z);
     orphanCleanupIntervalHours :=
       Z.max 1
         (orDefault (assigned (Some 24%Z) (loadedField data saved_orphanCleanupIntervalHours))
            24%Z);
     lastOrphanCleanupTs :=
       Some (orDefault (assigned None (loadedField data saved_lastOrphanCleanupTs)) 0%Z);
     liveSyncHashes :=
       orDefault (assigned None (loadedField data saved_liveSyncHashes)) [] |}.

(** What [saveData(this.settings)] writes of these fields: each one with
    its value, a missing [lastOrphanCleanupTs] left out. *)
Definition savedSettings (s : Settings) : SavedData :=
  {| saved_keyBacklink := Value (keyBacklink s);
     saved_folderToPublish := Value (folderToPublish s);
     saved_backlinkPublishState := Value (backlinkPublishState s);
     saved_liveSyncEnabled := Value (liveSyncEnabled s);
     saved_liveSyncDebounceSeconds := Value (liveSyncDebounceSeconds s);
     saved_liveSyncStrategy := Value (liveSyncStrategy s);
     saved_liveSyncIntervalMinutes := Value (liveSyncIntervalMinutes s);
     saved_orphanCleanupIntervalHours := Value (orphanCleanupIntervalHours s);
     saved_lastOrphanCleanupTs :=
       match lastOrphanCleanupTs s with
       | Some t => Value t
       | None => Absent
       end;
     saved_liveSyncHashes := Value (liveSyncHashes s) |}.

(** Settings in the form [loadSettings] leaves them. *)
Definition normalized (s : Settings) : Prop :=
  Js.trim (folderToPublish s) = folderToPublish s
  /\ (1 <= liveSyncIntervalMinutes s)%Z
  /\ (1 <= orphanCleanupIntervalHours s)%Z
  /\ lastOrphanCleanupTs s <> None.

Definition set_folderToPublish (folder : string) (s : Settings) : Settings :=
  {| keyBacklink := keyBacklink s;
     folderToPublish := folder;
     backlinkPublishState := backlinkPublishState s;
     liveSyncEnabled := liveSyncEnabled s;
     liveSyncDebounceSeconds := liveSyncDebounceSeconds s;
     liveSyncStrategy := liveSyncStrategy s;
     liveSyncIntervalMinutes := liveSyncIntervalMinutes s;
     orphanCleanupIntervalHours := orphanCleanupIntervalHours s;
     lastOrphanCleanupTs := lastOrphanCleanupTs s;
     liveSyncHashes := liveSyncHashes s |}.

(** [n] separators in a row. *)
Fixpoint slashes (n : nat) : string :=
  match n with
  | O => ""
  | S m => String "/" (slashes m)
  end.

(** ** Automation controls of the settings tab *)

(** The [setDisabled] values [refreshAutomationControls] gives to the
    sync trigger dropdown, the debounce slider and the interval slider. *)
Record AutomationControls := {
  liveSyncModeDisabled : bool;
  liveSyncDelayDisabled : bool;
  liveSyncIntervalDisabled : bool
}.

Definition refreshAutomationControls (s : Settings) : AutomationControls :=
  let enabled := liveSyncEnabled s in
  let strategy := liveSyncStrategy s in
  let usesOnSave := match strategy with OnSave | Both => true | Interval => false end in
  let usesInterval := match strategy with Interval | Both => true | OnSave => false end in
  {| liveSyncModeDisabled := negb enabled;
     liveSyncDelayDisabled := negb enabled || negb usesOnSave;
     liveSyncIntervalDisabled := negb enabled || negb usesInterval |}.

(** ** Interval timer and runtime state

    The plugin together with [liveSyncIntervalId], which holds the
    period in milliseconds of the one armed interval timer. *)
Record Runtime := {
  core : Plugin;
  liveSyncIntervalId : option Z
}.

Definition clearIntervalSyncTask (rt : Runtime) : Runtime :=
  match liveSyncIntervalId rt with
  | Some _ => {| core := core rt; liveSyncIntervalId := None |}
  | None => rt
  end.

Definition ensureIntervalSyncTask (rt : Runtime) : Runtime :=
  let rt1 := clearIntervalSyncTask rt in
  if negb (shouldUseIntervalSync (settings (core rt1))) then rt1
  else
    let minutes := Z.max 1 (liveSyncIntervalMinutes (settings (core rt1))) in
    let intervalMs := (minutes * 60 * 1000)%Z in
    {| core := core rt1; liveSyncIntervalId := Some intervalMs |}.

Definition syncLiveSyncRuntimeState (rt : Runtime) : Runtime :=
  if negb (liveSyncEnabled (settings (core rt))) then
    let rt1 := {| core := clearLiveSyncQueue (core rt);
                  liveSyncIntervalId := liveSyncIntervalId rt |} in
    let rt2 := clearIntervalSyncTask rt1 in
    {| core := updateStatusBar idle None (core rt2);
       liveSyncIntervalId := liveSyncIntervalId rt2 |}
  else
    let rt1 :=
      if negb (shouldUseOnSaveSync (settings (core rt)))
      then {| core := clearLiveSyncQueue (core rt);
              liveSyncIntervalId := liveSyncIntervalId rt |}
      else rt in
    ensureIntervalSyncTask rt1.

Definition onunload (rt : Runtime) : Runtime :=
  let rt1 := {| core := clearLiveSyncQueue (core rt);
                liveSyncIntervalId := liveSyncIntervalId rt |} in
  let rt2 := clearIntervalSyncTask rt1 in
  {| core := set_statusBarEl None (core rt2);
     liveSyncIntervalId := liveSyncIntervalId rt2 |}.

(** ** Interval tick *)

(** The body of the loop of [pruneMissingLiveSyncHashes], on the hash
    table and the [mutated] flag. *)
Definition pruneEntry (app : App) (acc : Dict.t * bool) (path : string) : Dict.t * bool :=
  let '(hashes, mut) := acc in
  match getAbstractFileByPath app path with
  | None => (Dict.remove path hashes, true)
  | Some _ => (hashes, mut)
  end.

Definition pruneMissingLiveSyncHashes (app : App) (p : Plugin) : Plugin :=
  let hashes := liveSyncHashes (settings p) in
  let '(pruned, mut) := fold_left (pruneEntry app) (Dict.keys hashes) (hashes, false) in
  let p1 := set_settings (set_liveSyncHashes pruned (settings p)) p in
  if mut then saveData p1 else p1.

(** [for (const path of eligiblePaths) this.liveSyncQueue.add(path)] *)
Definition enqueueAll (paths : list string) (q : StrSet.t) : StrSet.t :=
  fold_left (fun queue path => StrSet.add path queue) paths q.

Section IntervalTick.
Context `{Collaborators}.

(** [handleIntervalSyncTick] up to the first suspension of the flush it
    awaits, or to its return. When the flush suspends, the call of
    [pruneMissingLiveSyncHashes] waits for that flush to return. *)
Definition handleIntervalSyncTick (now : Z) (app : App) (p : Plugin) (w : World)
  : Plugin * World * option Task :=
  if negb (shouldUseIntervalSync (settings p)) then (p, w, None)
  else
    let eligiblePaths := collectEligibleLiveSyncPaths (settings p) app in
    match eligiblePaths with
    | _ :: _ =>
        let p1 := set_liveSyncQueue (enqueueAll eligiblePaths (liveSyncQueue p)) p in
        let p2 := updateStatusBar pending (Some (StrSet.size (liveSyncQueue p1))) p1 in
        let '(p3, w3, t) := flushStart now app p2 w in
        match t with
        | Some _ => (p3, w3, t)
        | None => (pruneMissingLiveSyncHashes app p3, w3, None)
        end
    | [] =>
        let '(p1, w1, _) := maybeRunOrphanCleanup false now app p w in
        (pruneMissingLiveSyncHashes app p1, w1, None)
    end.

(** The events that are not the firing of the debounce timer. *)
Definition notDebounceTimer (e : Event) : bool :=
  match e with
  | DebounceTimer _ => false
  | _ => true
  end.

(** What the state holds for a file of the publisher's result once
    [updateBacklinkState] is through with it: its page id, or nothing
    but an empty id that was there before. *)
Definition mappingAfter (before : option string) (result : FileResult) : option string :=
  if negb (pageId result =? "") then Some (pageId result)
  else match before with
       | Some "" => Some ""
       | _ => None
       end.

(** The report [doPublish] builds from the publisher's result. *)
Definition reportOf (adrFiles : list FileResult) : UploadResults :=
  fold_left collectResult adrFiles
    {| errorMessage := None; failedFiles := []; filesUploadResult := [] |}.

Definition uploadOf (element : FileResult) : list string :=
  match successfulUploadResult element with
  | Some u => [u]
  | None => []
  end.

Definition failureOf (element : FileResult) : list FailedFile :=
  match successfulUploadResult element with
  | Some _ => []
  | None => [{| fileName := absoluteFilePath element;
                failReason := orDefault (reason element) "No Reason Provided" |}]
  end.

End IntervalTick.

(** ** The sweep with a rejecting adaptor

    [removeBacklinkOrphans] once more, this time with every outcome of
    its awaits on the adaptor. [clearRejection w path] is the rejection,
    if any, of [clearConfluencePageId(path)] called in the world [w];
    the world after the call is [clearConfluencePageId w path] either
    way. A rejection at line 556 happens inside the [try] and is caught
    at line 557 like a rejection of the delete; a rejection at line 562
    happens inside the [catch] and leaves the loop and the function, so
    that neither the later entries nor [saveData] are reached. *)
Module Full.

(** A call on the remote side with its outcome, [None] when the promise
    resolved. *)
Inductive RemoteCall :=
| DeleteCall (path id : string) (out : option Thrown)
| ClearCall (path : string) (out : option Thrown).

Definition deletesOf (cs : list RemoteCall) : list (string * string * option Thrown) :=
  flat_map (fun c => match c with
                     | DeleteCall path id out => [(path, id, out)]
                     | ClearCall _ _ => []
                     end) cs.

Section WithRejections.
Context `{Collaborators}.
Variable clearRejection : World -> string -> option Thrown.

(** The variables of the loop. [calls] is a ghost log of the remote
    calls in the order they were made; [escaped] is the rejection that
    left the loop, if one did. *)
Record Pass := {
  state : Dict.t;
  deletedPaths : list string;
  failedDeletions : list (string * string);
  mutated : bool;
  world : World;
  calls : list RemoteCall;
  escaped : option Thrown
}.

Definition start (st : Dict.t) (w : World) : Pass :=
  {| state := st; deletedPaths := []; failedDeletions := []; mutated := false;
     world := w; calls := []; escaped := None |}.

(** [delete state[path]; mutated = true; continue] *)
Definition dropUnpublished (path : string) (a : Pass) : Pass :=
  {| state := Dict.remove path (state a);
     deletedPaths := deletedPaths a;
     failedDeletions := failedDeletions a;
     mutated := true;
     world := world a;
     calls := calls a;
     escaped := escaped a |}.

(** [deleteContent] has settled with [out], leaving the world [w1]. *)
Definition deleteSettled (path id : string) (out : option Thrown) (w1 : World) (a : Pass) : Pass :=
  {| state := state a;
     deletedPaths := deletedPaths a;
     failedDeletions := failedDeletions a;
     mutated := mutated a;
     world := w1;
     calls := (calls a ++ [DeleteCall path id out])%list;
     escaped := escaped a |}.

(** [delete state[path]; stats.deletedPaths.push(path); mutated = true;
    await this.adaptor.clearConfluencePageId(path)]: lines 553-556 and
    again lines 559-562. The second component is the outcome of the
    await. *)
Definition dropAndClear (path : string) (a : Pass) : Pass * option Thrown :=
  let out := clearRejection (world a) path in
  ({| state := Dict.remove path (state a);
      deletedPaths := (deletedPaths a ++ [path])%list;
      failedDeletions := failedDeletions a;
      mutated := true;
      world := clearConfluencePageId (world a) path;
      calls := (calls a ++ [ClearCall path out])%list;
      escaped := escaped a |}, out).

(** A rejection that nothing catches. *)
Definition throw (error : Thrown) (a : Pass) : Pass :=
  {| state := state a;
     deletedPaths := deletedPaths a;
     failedDeletions := failedDeletions a;
     mutated := mutated a;
     world := world a;
     calls := calls a;
     escaped := Some error |}.

Definition recordFailure (path : string) (error : Thrown) (a : Pass) : Pass :=
  {| state := state a;
     deletedPaths := deletedPaths a;
     failedDeletions := (failedDeletions a ++ [(path, failureReason error)])%list;
     mutated := mutated a;
     world := world a;
     calls := calls a;
     escaped := escaped a |}.

(** The [catch] block, lines 557-573. *)
Definition catch (path : string) (error : Thrown) (a : Pass) : Pass :=
  if isConfluenceNotFound error then
    match dropAndClear path a with
    | (a1, None) => a1
    | (a1, Some rejection) => throw rejection a1
    end
  else recordFailure path error a.

(** The [try] block from the moment the delete has settled with [out]:
    lines 553-556, or the [catch]. *)
Definition settleDelete (path : string) (out : option Thrown) (a : Pass) : Pass :=
  match out with
  | Some error => catch path error a
  | None =>
      match dropAndClear path a with
      | (a1, None) => a1
      | (a1, Some rejection) => catch path rejection a1
      end
  end.

(** The body of [for (const [path, pageId] of staleEntries)]; once a
    rejection has left the loop, the remaining entries are not
    visited. *)
Definition sweepEntry (a : Pass) (entry : string * string) : Pass :=
  match escaped a with
  | Some _ => a
  | None =>
      let '(path, id) := entry in
      if id =? "" then dropUnpublished path a
      else
        let '(w1, out) := deleteContent (world a) id in
        settleDelete path out (deleteSettled path id out w1 a)
  end.

(** The deletions from [state] stay in the settings object also when the
    function is left by a rejection; [saveData] is then not reached. *)
Definition removeBacklinkOrphans (currentEligiblePaths : StrSet.t) (p : Plugin) (w : World)
  : Plugin * Pass :=
  let st := backlinkPublishState (settings p) in
  let staleEntries := staleEntriesOf st currentEligiblePaths in
  match staleEntries with
  | [] => (p, start st w)
  | _ :: _ =>
      if negb (confluenceClient p) then (p, start st w)
      else
        let a := fold_left sweepEntry staleEntries (start st w) in
        let p1 := set_settings (set_backlinkPublishState (state a) (settings p)) p in
        match escaped a with
        | Some _ => (p1, a)
        | None => (if mutated a then saveData p1 else p1, a)
        end
  end.

(** The remote side itself, asked the calls [cs] one after the other
    from the world [w], gives the outcomes that [cs] holds and ends in
    the world [w']. *)
Fixpoint answered (w : World) (cs : list RemoteCall) (w' : World) : Prop :=
  match cs with
  | [] => w' = w
  | DeleteCall _ id out :: rest =>
      snd (deleteContent w id) = out /\ answered (fst (deleteContent w id)) rest w'
  | ClearCall path out :: rest =>
      clearRejection w path = out /\ answered (clearConfluencePageId w path) rest w'
  end.

(** The invariant of the loop after the entries [done], started from
    the backlink state [st0] in the world [w0]. *)
Definition Inv (st0 : Dict.t) (w0 : World) (done : list (string * string)) (a : Pass) : Prop :=
  answered w0 (calls a) (world a)
  /\ (forall k, ~ In k (map fst done) -> Dict.get k (state a) = Dict.get k st0)
  /\ (mutated a = false -> state a = st0 /\ deletedPaths a = [])
  /\ (forall path id, In (DeleteCall path id None) (calls a) ->
        Dict.get path (state a) = None)
  /\ (forall k, In k (deletedPaths a) ->
        exists id out, In (DeleteCall k id out) (calls a) /\ treatedAsDeleted out = true)
  /\ (forall k r, In (k, r) (failedDeletions a) ->
        (exists id error, In (DeleteCall k id (Some error)) (calls a)
                          /\ isConfluenceNotFound error = false)
        \/ (exists error, In (ClearCall k (Some error)) (calls a)))
  /\ (escaped a = None ->
      map fst (deletesOf (calls a)) = filter hasPageId done
      /\ (forall path id error, In (DeleteCall path id (Some error)) (calls a) ->
            isConfluenceNotFound error = true ->
            Dict.get path (state a) = None
            /\ In path (deletedPaths a)
            /\ In (ClearCall path None) (calls a))
      /\ (forall path id out, In (DeleteCall path id out) (calls a) ->
            In path (deletedPaths a) \/ In path (map fst (failedDeletions a)))
      /\ (forall k error, In (ClearCall k (Some error)) (calls a) ->
            exists id, In (DeleteCall k id None) (calls a))).

(** A pass and a sweep of the first embedding that hold the same
    values. *)
Definition agrees (a : Pass) (b : Sweep) : Prop :=
  escaped a = None
  /\ (state a, deletedPaths a, failedDeletions a, mutated a, world a) = sweepOutcome b
  /\ deletesOf (calls a) = deleteCalls b.

End WithRejections.

End Full.

(** ** The cleanup trigger at its await

    [maybeRunOrphanCleanup] in two pieces: the code up to the first
    suspension inside [removeBacklinkOrphans], and the rest. *)

Section CleanupAwait.
Context `{Collaborators}.

(** [removeBacklinkOrphans] from line 536 on, [staleEntries] having been
    read at line 533; [state] is the object the settings hold now. *)
Definition sweepSnapshot (staleEntries : list (string * string)) (p : Plugin) (w : World)
  : Plugin * Sweep :=
  let st := backlinkPublishState (settings p) in
  match staleEntries with
  | [] => (p, sweepStart st w)
  | _ :: _ =>
      if negb (confluenceClient p) then (p, sweepStart st w)
      else
        let a := fold_left sweepEntry staleEntries (sweepStart st w) in
        let p1 := set_settings (set_backlinkPublishState (state a) (settings p)) p in
        (if mutated a then saveData p1 else p1, a)
  end.

(** Lines 904-914 and 528-535: [None] when the cooldown stops the call,
    else the stale entries the sweep is going to visit. Nothing is
    written. *)
Definition cleanupStart (force : bool) (now : Z) (app : App) (p : Plugin)
  : option (list (string * string)) :=
  let intervalMs := cleanupIntervalMs (settings p) in
  let last := lastCleanup (settings p) in
  if negb force && (now - last <? intervalMs)%Z then None
  else
    let eligiblePaths := collectEligibleLiveSyncPaths (settings p) app in
    Some (staleEntriesOf (backlinkPublishState (settings p)) eligiblePaths).

(** The rest of the sweep, then lines 916-920, with the [now] that was
    read at line 910. *)
Definition cleanupFinish (now : Z) (staleEntries : list (string * string))
    (p : Plugin) (w : World) : Plugin * World * Sweep :=
  let '(p1, stats) := sweepSnapshot staleEntries p w in
  let p2 := set_settings (set_lastOrphanCleanupTs now (settings p1)) p1 in
  (saveData p2, sweepWorld stats, stats).

(** Two non-forced calls that overlap: the second is entered, at time
    [t2], while the first, entered at [t1], waits for the remote; the
    first then runs to its end, and after it the second. The third
    component lists the sweeps that were run. *)
Definition overlappingCleanups (t1 t2 : Z) (app : App) (p : Plugin) (w : World)
  : Plugin * World * list Sweep :=
  let first := cleanupStart false t1 app p in
  let second := cleanupStart false t2 app p in
  let '(p1, w1, sweeps1) :=
    match first with
    | Some staleEntries =>
        let '(p', w', stats) := cleanupFinish t1 staleEntries p w in (p', w', [stats])
    | None => (p, w, [])
    end in
  match second with
  | Some staleEntries =>
      let '(p', w', stats) := cleanupFinish t2 staleEntries p1 w1 in
      (p', w', (sweeps1 ++ [stats])%list)
  | None => (p1, w1, sweeps1)
  end.

(** The same two calls, the second entered after the first has
    returned. *)
Definition consecutiveCleanups (t1 t2 : Z) (app : App) (p : Plugin) (w : World)
  : Plugin * World * list Sweep :=
  let '(p1, w1, r1) := maybeRunOrphanCleanup false t1 app p w in
  let '(p2, w2, r2) := maybeRunOrphanCleanup false t2 app p1 w1 in
  (p2, w2, (match r1 with Some stats => [stats] | None => [] end
            ++ match r2 with Some stats => [stats] | None => [] end)%list).

End CleanupAwait.

(** More of the small vault: a saved state that an older version wrote,
    hashes of a note that is gone, and a publisher result. *)
Module Sample.

Definition oldData : SavedData :=
  {| saved_keyBacklink := Absent;
     saved_folderToPublish := Value "  Docs/  ";
     saved_backlinkPublishState := Null;
     saved_liveSyncEnabled := Value true;
     saved_liveSyncDebounceSeconds := Absent;
     saved_liveSyncStrategy := Value Both;
     saved_liveSyncIntervalMinutes := Value 0%Z;
     saved_orphanCleanupIntervalHours := Absent;
     saved_lastOrphanCleanupTs := Absent;
     saved_liveSyncHashes := Absent |}.

Definition withHashes : Plugin :=
  set_settings
    (set_liveSyncHashes [("Docs/a.md", "md5:alpha"); ("Docs/gone.md", "md5:old")]
       Demo.config) Demo.started.

Definition results : list FileResult :=
  [{| absoluteFilePath := "Docs/a.md"; pageId := "11";
      successfulUploadResult := Some "uploaded"; reason := None |};
   {| absoluteFilePath := "Docs/b.md"; pageId := "";
      successfulUploadResult := None; reason := None |}].

Definition published : Plugin :=
  set_settings
    (set_backlinkPublishState [("Docs/b.md", "5"); ("Old/z.md", "9")] Demo.config)
    Demo.started.

Definition manualTrace : list Event :=
  [RibbonClick; Modify (File Demo.a_md); PublishAll; PublishCurrent (Some "Docs/a.md");
   Settle 0 1000; PublishCurrent (Some "Docs/b.md")].

Definition repeatedSaves : list Event :=
  [Modify (File Demo.a_md); Modify (File Demo.b_md); Modify (File Demo.a_md);
   Modify (Folder "Docs"); Modify (File Demo.a_md)].

Definition twoTargets : list Target :=
  [{| targetPath := "Docs/a.md"; targetHash := "md5:alpha" |};
   {| targetPath := "Docs/b.md"; targetHash := "md5:beta" |}].

(** A remote that keeps the list of the calls it received. A page is
    deleted once: the second delete of a page is answered 404, like the
    delete of page "gone"; the delete of page "locked" is refused. *)
Definition recording : Collaborators :=
  {| World := list string;
     normalizeBacklinkKey := fun key => key;
     SparkMD5_hash := fun contents => "md5:" ++ contents;
     JSON_stringify := fun _ => "{}";
     deleteContent := fun w id =>
       ((w ++ [("delete " ++ id)%string])%list,
        if (id =? "gone") || StrSet.has ("delete " ++ id) w
        then Some (HTTPError 404 "no such page")
        else if id =? "locked"
             then Some (Obj true {| statusCode := None; message := Some "Forbidden";
                                    body_statusCode := None; response_status := None;
                                    response_data_statusCode := None |})
             else None);
     clearConfluencePageId := fun w path => (w ++ [("clear " ++ path)%string])%list;
     publish := fun w _ => (w, inr []) |}.

(** The note [Old/z.md] is gone from the vault: clearing its page id is
    rejected with an [Error]. *)
Definition noSuchNote : Thrown :=
  Obj true {| statusCode := None; message := Some "File not found in vault";
              body_statusCode := None; response_status := None;
              response_data_statusCode := None |}.

Definition clearRejection (w : list string) (path : string) : option Thrown :=
  if path =? "Old/z.md" then Some noSuchNote else None.

(** One stale page, and a last cleanup long ago. *)
Definition overdue : Plugin :=
  set_settings (set_backlinkPublishState [("Old/z.md", "9")] Demo.config) Demo.started.

End Sample.

(** * Properties *)

Open Scope list_scope.

(** ** Records and loops *)

Lemma get_remove_same (k : string) (m : Dict.t) :
  Dict.get k (Dict.remove k m) = None.
Proof.
  induction m as [|[k' v] m IH]; simpl; [reflexivity|].
  unfold Dict.keyIs; simpl.
  destruct (k' =? k) eqn:E; simpl; [exact IH|].
  now rewrite E.
Qed.

Lemma get_remove_other (k k' : string) (m : Dict.t) :
  k <> k' -> Dict.get k (Dict.remove k' m) = Dict.get k m.
Proof.
  intros Hne.
  induction m as [|[k0 v] m IH]; simpl; [reflexivity|].
  unfold Dict.keyIs; simpl.
  destruct (k0 =? k') eqn:E; simpl.
  - apply String.eqb_eq in E; subst k0.
    destruct (k' =? k) eqn:E2; [|exact IH].
    apply String.eqb_eq in E2; congruence.
  - now rewrite IH.
Qed.

Lemma get_remove_none (k k' : string) (m : Dict.t) :
  Dict.get k m = None -> Dict.get k (Dict.remove k' m) = None.
Proof.
  intros Hn.
  destruct (string_dec k k') as [->|Hne].
  - apply get_remove_same.
  - now rewrite get_remove_other.
Qed.

Lemma get_app_none (k : string) (m m' : Dict.t) :
  Dict.get k m = None -> Dict.get k (m ++ m') = Dict.get k m'.
Proof.
  induction m as [|[k0 v] m IH]; simpl; [reflexivity|].
  destruct (k0 =? k); [discriminate|exact IH].
Qed.

Lemma get_replace_same (k v : string) (m : Dict.t) :
  Dict.get k m <> None -> Dict.get k (Dict.replace k v m) = Some v.
Proof.
  induction m as [|[k0 v0] m IH]; simpl; [congruence|].
  destruct (k0 =? k) eqn:E; simpl; rewrite E; [reflexivity|exact IH].
Qed.

Lemma get_replace_other (k k' v : string) (m : Dict.t) :
  k <> k' -> Dict.get k (Dict.replace k' v m) = Dict.get k m.
Proof.
  intros Hne.
  induction m as [|[k0 v0] m IH]; simpl; [reflexivity|].
  destruct (k0 =? k') eqn:E; simpl.
  - apply String.eqb_eq in E; subst k0.
    destruct (k' =? k) eqn:E2; [|reflexivity].
    apply String.eqb_eq in E2; congruence.
  - now rewrite IH.
Qed.

Lemma get_set_same (k v : string) (m : Dict.t) :
  Dict.get k (Dict.set k v m) = Some v.
Proof.
  unfold Dict.set.
  destruct (Dict.get k m) eqn:E.
  - apply get_replace_same; congruence.
  - rewrite get_app_none by exact E. simpl. now rewrite String.eqb_refl.
Qed.

Lemma get_set_other (k k' v : string) (m : Dict.t) :
  k <> k' -> Dict.get k (Dict.set k' v m) = Dict.get k m.
Proof.
  intros Hne. unfold Dict.set.
  destruct (Dict.get k' m) eqn:E.
  - now apply get_replace_other.
  - induction m as [|[k0 v0] m IH]; simpl.
    + destruct (k' =? k) eqn:E2; [|reflexivity].
      apply String.eqb_eq in E2; congruence.
    + simpl in E. destruct (k0 =? k'); [discriminate|].
      destruct (k0 =? k); [reflexivity|]. now apply IH.
Qed.


Lemma fold_left_invariant {A B : Type} (f : A -> B -> A) (P : list B -> A -> Prop) :
  (forall done x a, P done a -> P (done ++ [x])%list (f a x)) ->
  forall l done a, P done a -> P (done ++ l)%list (fold_left f l a).
Proof.
  intros Hstep l.
  induction l as [|x l IH]; simpl; intros done a Ha.
  - now rewrite app_nil_r.
  - replace (done ++ x :: l)%list with ((done ++ [x]) ++ l)%list
      by (rewrite <- app_assoc; reflexivity).
    apply IH. now apply Hstep.
Qed.

Lemma NoDup_map_injective {A B : Type} (g : A -> B) (l : list A) (x y : A) :
  NoDup (map g l) -> In x l -> In y l -> g x = g y -> x = y.
Proof.
  induction l as [|z l IH]; simpl; intros Hnd Hx Hy Hg; [contradiction|].
  inversion Hnd as [|? ? Hnotin Hnd']; subst.
  destruct Hx as [->|Hx], Hy as [->|Hy]; auto.
  - exfalso. apply Hnotin. rewrite Hg. now apply in_map.
  - exfalso. apply Hnotin. rewrite <- Hg. now apply in_map.
Qed.

Lemma NoDup_map_filter {A B : Type} (g : A -> B) (keep : A -> bool) (l : list A) :
  NoDup (map g l) -> NoDup (map g (filter keep l)).
Proof.
  induction l as [|x l IH]; simpl; intros Hnd; [constructor|].
  inversion Hnd as [|? ? Hnotin Hnd']; subst.
  destruct (keep x); simpl; [|now apply IH].
  constructor; [|now apply IH].
  intros Hin. apply Hnotin.
  apply in_map_iff in Hin. destruct Hin as [y [Hy Hin]].
  apply filter_In in Hin. rewrite <- Hy. apply in_map. tauto.
Qed.

Lemma NoDup_snoc {A : Type} (l : list A) (x : A) :
  NoDup (l ++ [x])%list -> NoDup l /\ ~ In x l.
Proof.
  intros Hnd. apply NoDup_app_remove_r in Hnd as Hl.
  split; [exact Hl|].
  intros Hin. apply in_split in Hin. destruct Hin as [l1 [l2 ->]].
  rewrite <- app_assoc in Hnd. simpl in Hnd.
  apply NoDup_remove_2 in Hnd. apply Hnd.
  rewrite in_app_iff. right. rewrite in_app_iff. right. now left.
Qed.

(** ** The sweep loop *)

Section SweepFacts.
Context `{Collaborators}.

Lemma call_in_done (st0 : Dict.t) (done : list (string * string)) (a : Sweep)
    (path id : string) (out : option Thrown) :
  SweepInv st0 done a -> In (path, id, out) (deleteCalls a) -> In path (map fst done).
Proof.
  intros [Hc _] Hin.
  apply (in_map fst) in Hin. simpl in Hin. rewrite Hc in Hin.
  apply filter_In in Hin. destruct Hin as [Hin _].
  now apply (in_map fst) in Hin.
Qed.

Lemma SweepInv_start (st0 : Dict.t) (w : World) : SweepInv st0 [] (sweepStart st0 w).
Proof.
  unfold SweepInv; simpl.
  repeat split; intros; try contradiction; auto.
Qed.

Lemma not_in_snoc (k k' : string) (v : string) (done : list (string * string)) :
  ~ In k (map fst (done ++ [(k', v)])) -> ~ In k (map fst done) /\ k <> k'.
Proof.
  rewrite map_app, in_app_iff; simpl. intros Hn.
  split; [tauto|]. intros ->. tauto.
Qed.

Lemma keys_snoc (k v : string) (done : list (string * string)) :
  NoDup (map fst (done ++ [(k, v)])) -> NoDup (map fst done) /\ ~ In k (map fst done).
Proof.
  rewrite map_app; simpl. apply NoDup_snoc.
Qed.

(** An entry without a remote id is dropped locally. *)
Lemma SweepInv_no_id (st0 : Dict.t) (done : list (string * string)) (a : Sweep) (k : string) :
  SweepInv st0 done a ->
  SweepInv st0 (done ++ [(k, "")])
    {| state := Dict.remove k (state a);
       deletedPaths := deletedPaths a;
       failedDeletions := failedDeletions a;
       mutated := true;
       sweepWorld := sweepWorld a;
       deleteCalls := deleteCalls a;
       clearedPaths := clearedPaths a |}.
Proof.
  intros Hinv.
  pose proof (call_in_done st0 done a) as Hdone.
  destruct Hinv as (Hc & Hfr & Hdr & Hfa & Hds & Hfs & Hk).
  unfold SweepInv; simpl.
  split; [|split; [|split; [|split; [|split; [|split]]]]].
  - rewrite filter_app; simpl. now rewrite app_nil_r.
  - intros k0 Hn. apply not_in_snoc in Hn. destruct Hn as [Hn Hne].
    rewrite get_remove_other by exact Hne. now apply Hfr.
  - intros path id out Hin Ht.
    destruct (Hdr path id out Hin Ht) as (Hg & Hd & Hcl).
    repeat split; auto. now apply get_remove_none.
  - exact Hfa.
  - exact Hds.
  - exact Hfs.
  - intros Hnd path id error Hin Hnf.
    apply keys_snoc in Hnd. destruct Hnd as [Hnd Hnotin].
    rewrite get_remove_other.
    + now apply (Hk Hnd path id error).
    + intros ->. apply Hnotin.
      apply (Hdone k id (Some error)); [|exact Hin].
      unfold SweepInv; tauto.
Qed.

(** A delete that resolved, or was answered not-found. *)
Lemma SweepInv_dropped (st0 : Dict.t) (done : list (string * string)) (a : Sweep)
    (k v : string) (out : option Thrown) (w1 : World) :
  SweepInv st0 done a -> (v =? "") = false -> treatedAsDeleted out = true ->
  SweepInv st0 (done ++ [(k, v)]) (dropDeleted k v out w1 a).
Proof.
  intros Hinv Hv Hout.
  pose proof (call_in_done st0 done a) as Hdone.
  destruct Hinv as (Hc & Hfr & Hdr & Hfa & Hds & Hfs & Hk).
  assert (Hinv : SweepInv st0 done a) by (unfold SweepInv; tauto).
  unfold SweepInv; simpl.
  split; [|split; [|split; [|split; [|split; [|split]]]]].
  - rewrite map_app, filter_app; simpl. unfold hasPageId; simpl.
    rewrite Hv; simpl. now rewrite Hc.
  - intros k0 Hn. apply not_in_snoc in Hn. destruct Hn as [Hn Hne].
    rewrite get_remove_other by exact Hne. now apply Hfr.
  - intros path id out' Hin Ht.
    rewrite !in_app_iff; simpl.
    apply in_app_iff in Hin. destruct Hin as [Hin|[Heq|[]]].
    + destruct (Hdr path id out' Hin Ht) as (Hg & Hd & Hcl).
      repeat split; auto. now apply get_remove_none.
    + inversion Heq; subst. repeat split; auto. apply get_remove_same.
  - intros path id error Hin Hnf.
    apply in_app_iff in Hin. destruct Hin as [Hin|[Heq|[]]].
    + now apply (Hfa path id error).
    + inversion Heq; subst. simpl in Hout. congruence.
  - intros k0 Hin.
    apply in_app_iff in Hin. destruct Hin as [Hin|[Heq|[]]].
    + destruct (Hds k0 Hin) as (id & out' & Hcall & Ht).
      exists id, out'. split; [|exact Ht]. apply in_app_iff; now left.
    + subst k0. exists v, out. split; [|exact Hout].
      apply in_app_iff; right; now left.
  - intros k0 r Hin.
    destruct (Hfs k0 r Hin) as (id & error & Hcall & Hnf).
    exists id, error. split; [|exact Hnf]. apply in_app_iff; now left.
  - intros Hnd path id error Hin Hnf.
    apply keys_snoc in Hnd. destruct Hnd as [Hnd Hnotin].
    apply in_app_iff in Hin. destruct Hin as [Hin|[Heq|[]]].
    + rewrite get_remove_other.
      * now apply (Hk Hnd path id error).
      * intros ->. apply Hnotin. now apply (Hdone k id (Some error)).
    + inversion Heq; subst. simpl in Hout. congruence.
Qed.

(** A delete that failed with another error. *)
Lemma SweepInv_failed (st0 : Dict.t) (done : list (string * string)) (a : Sweep)
    (k v : string) (error : Thrown) (w1 : World) :
  SweepInv st0 done a -> (v =? "") = false -> isConfluenceNotFound error = false ->
  SweepInv st0 (done ++ [(k, v)])
    {| state := state a;
       deletedPaths := deletedPaths a;
       failedDeletions := failedDeletions a ++ [(k, failureReason error)];
       mutated := mutated a;
       sweepWorld := w1;
       deleteCalls := deleteCalls a ++ [(k, v, Some error)];
       clearedPaths := clearedPaths a |}.
Proof.
  intros Hinv Hv Herr.
  destruct Hinv as (Hc & Hfr & Hdr & Hfa & Hds & Hfs & Hk).
  unfold SweepInv; simpl.
  split; [|split; [|split; [|split; [|split; [|split]]]]].
  - rewrite map_app, filter_app; simpl. unfold hasPageId; simpl.
    rewrite Hv; simpl. now rewrite Hc.
  - intros k0 Hn. apply not_in_snoc in Hn. destruct Hn as [Hn Hne].
    now apply Hfr.
  - intros path id out Hin Ht.
    apply in_app_iff in Hin. destruct Hin as [Hin|[Heq|[]]].
    + now apply (Hdr path id out).
    + inversion Heq; subst. simpl in Ht. congruence.
  - intros path id e Hin Hnf.
    apply in_app_iff.
    apply in_app_iff in Hin. destruct Hin as [Hin|[Heq|[]]].
    + left. now apply (Hfa path id e).
    + inversion Heq; subst. right; now left.
  - intros k0 Hin.
    destruct (Hds k0 Hin) as (id & out & Hcall & Ht).
    exists id, out. split; [|exact Ht]. apply in_app_iff; now left.
  - intros k0 r Hin.
    apply in_app_iff in Hin. destruct Hin as [Hin|[Heq|[]]].
    + destruct (Hfs k0 r Hin) as (id & e & Hcall & Hnf).
      exists id, e. split; [|exact Hnf]. apply in_app_iff; now left.
    + inversion Heq; subst. exists v, error. split; [|exact Herr].
      apply in_app_iff; right; now left.
  - intros Hnd path id e Hin Hnf.
    apply keys_snoc in Hnd. destruct Hnd as [Hnd Hnotin].
    apply in_app_iff in Hin. destruct Hin as [Hin|[Heq|[]]].
    + now apply (Hk Hnd path id e).
    + inversion Heq; subst. now apply Hfr.
Qed.

Lemma SweepInv_step (st0 : Dict.t) (done : list (string * string)) (entry : string * string)
    (a : Sweep) :
  SweepInv st0 done a -> SweepInv st0 (done ++ [entry]) (sweepEntry a entry).
Proof.
  intros Hinv. destruct entry as [k v]. unfold sweepEntry.
  destruct (v =? "") eqn:Hv.
  - apply String.eqb_eq in Hv; subst v. now apply SweepInv_no_id.
  - destruct (deleteContent (sweepWorld a) v) as [w1 out].
    unfold settleDelete.
    destruct out as [error|].
    + destruct (isConfluenceNotFound error) eqn:Hnf.
      * now apply SweepInv_dropped.
      * now apply SweepInv_failed.
    + now apply SweepInv_dropped.
Qed.

Lemma SweepInv_loop (st0 : Dict.t) (stale : list (string * string)) (w : World) :
  SweepInv st0 stale (fold_left sweepEntry stale (sweepStart st0 w)).
Proof.
  apply (fold_left_invariant sweepEntry (SweepInv st0) (SweepInv_step st0) stale []).
  apply SweepInv_start.
Qed.


Lemma removeBacklinkOrphans_frame (eligible : StrSet.t) (p : Plugin) (w : World) :
  let p1 := fst (removeBacklinkOrphans eligible p w) in
  liveSyncHashes (settings p1) = liveSyncHashes (settings p)
  /\ orphanCleanupIntervalHours (settings p1) = orphanCleanupIntervalHours (settings p)
  /\ lastOrphanCleanupTs (settings p1) = lastOrphanCleanupTs (settings p)
  /\ isSyncing p1 = isSyncing p
  /\ liveSyncQueue p1 = liveSyncQueue p
  /\ liveSyncTimeout p1 = liveSyncTimeout p
  /\ statusBarEl p1 = statusBarEl p.
Proof.
  unfold removeBacklinkOrphans.
  destruct (staleEntriesOf _ eligible) as [|e l]; [simpl; tauto|].
  destruct (confluenceClient p); simpl; [|tauto].
  destruct (mutated _); simpl; tauto.
Qed.

End SweepFacts.

(** ** Orphan reconciliation *)

Section OrphanReconciler.
Context `{Collaborators}.



Lemma eligible_not_stale (st0 : Dict.t) (eligible : StrSet.t) (path : string) :
  StrSet.has path eligible = true -> ~ In path (map fst (staleEntriesOf st0 eligible)).
Proof.
  intros Hhas Hin. apply in_map_iff in Hin. destruct Hin as [[k v] [Hk Hin]].
  simpl in Hk; subst k. apply filter_In in Hin. destruct Hin as [_ Hneg].
  simpl in Hneg. rewrite Hhas in Hneg. discriminate.
Qed.


End OrphanReconciler.

(** ** Cleanup cooldown *)

Section Cooldown.
Context `{Collaborators}.

Lemma maybeRunOrphanCleanup_skips (now : Z) (app : App) (p : Plugin) (w : World) :
  (now - lastCleanup (settings p) < cleanupIntervalMs (settings p))%Z ->
  maybeRunOrphanCleanup false now app p w = (p, w, None).
Proof.
  intros Hlt. unfold maybeRunOrphanCleanup.
  apply Z.ltb_lt in Hlt. rewrite Hlt. reflexivity.
Qed.

(** A call that is forced, or made after the cooldown, sweeps and stamps
    the settings with [now]; the cadence is what it was. *)
Lemma maybeRunOrphanCleanup_runs (force : bool) (now : Z) (app : App) (p : Plugin) (w : World) :
  force = true \/ (cleanupIntervalMs (settings p) <= now - lastCleanup (settings p))%Z ->
  exists p1 w1 stats,
    maybeRunOrphanCleanup force now app p w = (p1, w1, Some stats)
    /\ lastOrphanCleanupTs (settings p1) = Some now
    /\ cleanupIntervalMs (settings p1) = cleanupIntervalMs (settings p).
Proof.
  intros Hrun. unfold maybeRunOrphanCleanup.
  assert (Htest : negb force
                  && (now - lastCleanup (settings p) <? cleanupIntervalMs (settings p))%Z
                  = false).
  { destruct Hrun as [->|Hge]; [reflexivity|].
    apply Z.ltb_ge in Hge. rewrite Hge. apply andb_false_r. }
  rewrite Htest.
  pose proof (removeBacklinkOrphans_frame
                (collectEligibleLiveSyncPaths (settings p) app) p w) as Hframe.
  destruct (removeBacklinkOrphans _ p w) as [p1 stats]. simpl in Hframe.
  destruct Hframe as (_ & Hhours & _).
  eexists _, _, _. split; [reflexivity|]. split; [reflexivity|].
  unfold cleanupIntervalMs; simpl. now rewrite Hhours.
Qed.

(** Calls made one after the other. The cadence is the configured number
    of hours, at least one, in milliseconds. Two non-forced calls of the
    trigger, the second one entered after the first has returned and
    less than the cadence after it, run at most one sweep between them;
    a non-forced call inside the cooldown changes nothing, the
    last-cleanup timestamp included; the forced variant runs
    [removeBacklinkOrphans] on the eligible paths of the vault and
    leaves [now] as the timestamp, whatever the remote answered to the
    deletes. *)
Lemma cooldown_of_consecutive_calls (app1 app2 : App) (p : Plugin) (w : World) :
  cleanupIntervalMs (settings p)
  = (Z.max 1 (orphanCleanupIntervalHours (settings p)) * 3600000)%Z
  /\ (forall t1 t2,
      (t2 - t1 < cleanupIntervalMs (settings p))%Z ->
      sweepsOfConsecutiveCalls t1 t2 app1 app2 p w <= 1)
  /\ (forall now,
      (now - lastCleanup (settings p) < cleanupIntervalMs (settings p))%Z ->
      maybeRunOrphanCleanup false now app1 p w = (p, w, None))
  /\ (forall now,
      let r := removeBacklinkOrphans (collectEligibleLiveSyncPaths (settings p) app1) p w in
      snd (runOrphanCleanupNow now app1 p w) = Some (snd r)
      /\ snd (fst (runOrphanCleanupNow now app1 p w)) = sweepWorld (snd r)
      /\ lastOrphanCleanupTs (settings (fst (fst (runOrphanCleanupNow now app1 p w))))
         = Some now).
Proof.
  split; [unfold cleanupIntervalMs; lia|].
  split; [|split].
  - intros t1 t2 Hclose. unfold sweepsOfConsecutiveCalls.
    destruct (Z.lt_ge_cases (t1 - lastCleanup (settings p)) (cleanupIntervalMs (settings p)))
      as [Hcool|Hdue].
    + rewrite (maybeRunOrphanCleanup_skips t1 app1 p w Hcool).
      destruct (maybeRunOrphanCleanup false t2 app2 p w) as [[p2 w2] [s2|]]; simpl; lia.
    + destruct (maybeRunOrphanCleanup_runs false t1 app1 p w (or_intror Hdue))
        as (p1 & w1 & stats & Hrun & Hts & Hint).
      rewrite Hrun.
      rewrite (maybeRunOrphanCleanup_skips t2 app2 p1 w1); [simpl; lia|].
      unfold lastCleanup. rewrite Hts, Hint. exact Hclose.
  - intros now. apply maybeRunOrphanCleanup_skips.
  - intros now r. subst r. unfold runOrphanCleanupNow, maybeRunOrphanCleanup.
    cbn [negb andb].
    destruct (removeBacklinkOrphans _ p w) as [p1 stats]. repeat split.
Qed.

Lemma maybeRunOrphanCleanup_frame (force : bool) (now : Z) (app : App) (p : Plugin) (w : World) :
  let p1 := fst (fst (maybeRunOrphanCleanup force now app p w)) in
  liveSyncHashes (settings p1) = liveSyncHashes (settings p)
  /\ isSyncing p1 = isSyncing p
  /\ liveSyncQueue p1 = liveSyncQueue p
  /\ liveSyncTimeout p1 = liveSyncTimeout p
  /\ statusBarEl p1 = statusBarEl p.
Proof.
  unfold maybeRunOrphanCleanup.
  destruct (negb force && _); [simpl; tauto|].
  pose proof (removeBacklinkOrphans_frame
                (collectEligibleLiveSyncPaths (settings p) app) p w) as Hframe.
  destruct (removeBacklinkOrphans _ p w) as [p1 stats]. simpl in *. tauto.
Qed.

(** The trigger is the composition of its two pieces. *)
Lemma maybeRunOrphanCleanup_cut (force : bool) (now : Z) (app : App) (p : Plugin) (w : World) :
  maybeRunOrphanCleanup force now app p w
  = match cleanupStart force now app p with
    | None => (p, w, None)
    | Some staleEntries =>
        let '(p2, w2, stats) := cleanupFinish now staleEntries p w in (p2, w2, Some stats)
    end.
Proof.
  unfold maybeRunOrphanCleanup, cleanupStart, cleanupFinish.
  destruct (negb force && _); [reflexivity|].
  change (sweepSnapshot (staleEntriesOf (backlinkPublishState (settings p))
                           (collectEligibleLiveSyncPaths (settings p) app)) p w)
    with (removeBacklinkOrphans (collectEligibleLiveSyncPaths (settings p) app) p w).
  now destruct (removeBacklinkOrphans _ p w).
Qed.

(** The first piece writes nothing: a later call that finds the same
    settings passes the test that an earlier one passed. *)
Lemma cleanupStart_later (t1 t2 : Z) (app : App) (p : Plugin) :
  cleanupStart false t1 app p <> None -> (t1 <= t2)%Z ->
  cleanupStart false t2 app p = cleanupStart false t1 app p.
Proof.
  unfold cleanupStart. cbn [negb andb].
  destruct (t1 - lastCleanup (settings p) <? cleanupIntervalMs (settings p))%Z eqn:H1;
    [congruence|].
  intros _ Hle. apply Z.ltb_ge in H1.
  assert (H2 : (t2 - lastCleanup (settings p) <? cleanupIntervalMs (settings p))%Z = false)
    by (apply Z.ltb_ge; lia).
  now rewrite H2.
Qed.

(** Once the cooldown is over, two overlapping calls both sweep, however
    close together they are. *)
Lemma overlapping_calls_both_sweep (t1 t2 : Z) (app : App) (p : Plugin) (w : World) :
  (cleanupIntervalMs (settings p) <= t1 - lastCleanup (settings p))%Z -> (t1 <= t2)%Z ->
  List.length (snd (overlappingCleanups t1 t2 app p w)) = 2.
Proof.
  intros Hdue Hle. unfold overlappingCleanups.
  assert (Hfirst : cleanupStart false t1 app p <> None).
  { unfold cleanupStart. cbn [negb andb]. apply Z.ltb_ge in Hdue. now rewrite Hdue. }
  rewrite (cleanupStart_later t1 t2 app p Hfirst Hle).
  destruct (cleanupStart false t1 app p) as [stale|]; [|congruence].
  destruct (cleanupFinish t1 stale p w) as [[p1 w1] s1].
  destruct (cleanupFinish t2 stale p1 w1) as [[p2 w2] s2]. reflexivity.
Qed.

End Cooldown.

(** C7 (cleanup cooldown). Two non-forced calls of the trigger one
    millisecond apart, the cadence being 24 hours and the last cleanup
    long ago; the second call is entered while the first waits for the
    remote delete of the page of [Old/z.md]. Both pass the cooldown test
    of line 911, because the timestamp is written at line 919 only,
    after the awaited sweep; both sweep, and the remote is asked twice
    to delete page 9, the second time answering 404. Made one after the
    other, the same two calls run one sweep. *)
Theorem cooldown_race :
  let r := overlappingCleanups (H := Sample.recording) 100000000 100000001
             Demo.app Sample.overdue [] in
  let r' := consecutiveCleanups (H := Sample.recording) 100000000 100000001
              Demo.app Sample.overdue [] in
  (100000001 - 100000000 < cleanupIntervalMs (settings Sample.overdue))%Z
  /\ map deleteCalls (snd r)
     = [[("Old/z.md", "9", None)];
        [("Old/z.md", "9", Some (HTTPError 404 "no such page"))]]
  /\ snd (fst r) = ["delete 9"; "clear Old/z.md"; "delete 9"; "clear Old/z.md"]
  /\ lastOrphanCleanupTs (settings (fst (fst r))) = Some 100000001%Z
  /\ map deleteCalls (snd r') = [[("Old/z.md", "9", None)]]
  /\ snd (fst r') = ["delete 9"; "clear Old/z.md"]
  /\ lastOrphanCleanupTs (settings (fst (fst r'))) = Some 100000000%Z.
Proof.
  vm_compute. repeat split.
Qed.

(** ** Modify events and eligibility *)

Section SavePath.
Context `{Collaborators}.

(** C10 (frame of the modify handler). When live sync is off, or the
    strategy is interval only, or the modified entry is not a file, or
    its extension is not "md", [onVaultFileModified] returns the plugin
    as it was: queue, debounce timer and status included. The
    eligibility of the file, hence the configured folder, is not even
    looked at. *)
Theorem modify_ignored (app : App) (file : TAbstractFile) (p : Plugin) :
  liveSyncEnabled (settings p) = false
  \/ liveSyncStrategy (settings p) = Interval
  \/ (forall f, file <> File f)
  \/ (exists f, file = File f /\ extension f <> "md") ->
  onVaultFileModified app file p = p.
Proof.
  intros Hcase. unfold onVaultFileModified, shouldUseOnSaveSync.
  destruct (liveSyncEnabled (settings p)) eqn:Hen; simpl; [|reflexivity].
  destruct (liveSyncStrategy (settings p)) eqn:Hst; simpl; try reflexivity.
  - destruct file as [f|d]; [|reflexivity].
    destruct Hcase as [Hc|[Hc|[Hc|[f' [Hf Hext]]]]]; try discriminate.
    + now destruct (Hc f).
    + inversion Hf; subst f'.
      destruct (extension f =? "md") eqn:E; [|reflexivity].
      apply String.eqb_eq in E. contradiction.
  - destruct file as [f|d]; [|reflexivity].
    destruct Hcase as [Hc|[Hc|[Hc|[f' [Hf Hext]]]]]; try discriminate.
    + now destruct (Hc f).
    + inversion Hf; subst f'.
      destruct (extension f =? "md") eqn:E; [|reflexivity].
      apply String.eqb_eq in E. contradiction.
Qed.

(** Whatever the folder setting, the filter is the outcome of the rules
    on the trimmed folder. *)
Lemma eligibility_on_trimmed_folder (s : Settings) (app : App) (file : TFile) :
  isFileEligibleForLiveSync s app file
  = eligibleByRules (Js.trim (folderToPublish s)) (keyBacklink s) (path file)
      (extractedLinks app file) (extractedEmbeds app file).
Proof.
  unfold isFileEligibleForLiveSync, eligibleByRules, extractedLinks, extractedEmbeds,
    getNormalizedBacklinkKey.
  destruct (Js.stripTrailingSlashes (Js.trim (folderToPublish s)) =? "") eqn:Hfolder; simpl.
  - destruct (normalizeBacklinkKey (keyBacklink s) =? "") eqn:Hkey; simpl; [reflexivity|].
    destruct (getFileCache app file) as [cache|]; [|reflexivity].
    destruct (links cache) as [ls|], (embeds cache) as [es|]; reflexivity.
  - destruct ((path file =? Js.stripTrailingSlashes (Js.trim (folderToPublish s)))
              || Js.startsWith (path file)
                   (Js.stripTrailingSlashes (Js.trim (folderToPublish s)) ++ "/")%string);
      simpl; [reflexivity|].
    destruct (normalizeBacklinkKey (keyBacklink s) =? "") eqn:Hkey; simpl; [reflexivity|].
    destruct (getFileCache app file) as [cache|]; [|reflexivity].
    destruct (links cache) as [ls|], (embeds cache) as [es|]; reflexivity.
Qed.

(** C4 (eligibility filter). For settings whose folder is trimmed, as
    [loadSettings] and the settings tab leave it,
    [isFileEligibleForLiveSync] is the outcome of the five rules of the
    specification taken in order, "configured" read on the folder
    without its trailing separators and on the normalised key, and the
    targets being the links and embeds of the file's metadata cache
    (none when there is no cache). Rule 4 never decides: when it is
    reached the key is configured. *)
Theorem eligibility_follows_rules (s : Settings) (app : App) (file : TFile) :
  Js.trim (folderToPublish s) = folderToPublish s ->
  isFileEligibleForLiveSync s app file
  = eligibleByRules (folderToPublish s) (keyBacklink s) (path file)
      (extractedLinks app file) (extractedEmbeds app file).
Proof.
  intros Htrim. rewrite eligibility_on_trimmed_folder. now rewrite Htrim.
Qed.

End SavePath.

(** ** Drain filter and hash table *)

Section PublishCycle.
Context `{Collaborators}.

Lemma targetStep_publishable (app : App) (hashes : Dict.t) (path : string)
    (targets : list Target) :
  let targets1 := targetStep hashes path (computeFileHash app path) targets in
  map targetPath targets1
  = map targetPath targets ++ filter (publishable app hashes) [path]
  /\ (forall t, In t targets1 ->
        In t targets \/ computeFileHash app (targetPath t) = Some (targetHash t)).
Proof.
  unfold targetStep, publishable; simpl.
  destruct (computeFileHash app path) as [h|] eqn:Hhash; simpl.
  - destruct (h =? "") eqn:Hempty; simpl.
    + rewrite app_nil_r. auto.
    + destruct (sameHash (Dict.get path hashes) h); simpl.
      * rewrite app_nil_r. auto.
      * rewrite map_app; simpl. split; [reflexivity|].
        intros t Hin. apply in_app_iff in Hin.
        destruct Hin as [Hin|[<-|[]]]; [now left|right; exact Hhash].
  - rewrite app_nil_r. auto.
Qed.

(** C3, as the code has it (drain filter). The targets of a drain are,
    in queue order, the queued paths whose content could be read and
    whose fingerprint is not the one stored in [liveSyncHashes], each
    with the fingerprint just computed; a path whose content cannot be
    read is not among them. *)
Theorem drain_filter (app : App) (hashes : Dict.t) (queuedPaths : list string) :
  let targets := drainTargets app hashes queuedPaths in
  map targetPath targets = filter (publishable app hashes) queuedPaths
  /\ (forall t, In t targets -> computeFileHash app (targetPath t) = Some (targetHash t))
  /\ (forall path, computeFileHash app path = None -> ~ In path (map targetPath targets)).
Proof.
  intros targets.
  assert (Hinv : map targetPath targets = filter (publishable app hashes) queuedPaths
                 /\ (forall t, In t targets ->
                       computeFileHash app (targetPath t) = Some (targetHash t))).
  { subst targets. unfold drainTargets.
    apply (fold_left_invariant
             (fun targets path => targetStep hashes path (computeFileHash app path) targets)
             (fun done targets =>
                map targetPath targets = filter (publishable app hashes) done
                /\ (forall t, In t targets ->
                      computeFileHash app (targetPath t) = Some (targetHash t)))
             ) with (done := []) (l := queuedPaths).
    - intros done path ts [Hmap Hhash].
      destruct (targetStep_publishable app hashes path ts) as [Hmap1 Hhash1].
      split.
      + rewrite Hmap1, Hmap, filter_app. reflexivity.
      + intros t Hin. destruct (Hhash1 t Hin) as [Hold|Hnew]; auto.
    - split; [reflexivity|]. intros t []. }
  destruct Hinv as [Hmap Hhash].
  split; [exact Hmap|]. split; [exact Hhash|].
  intros path Hnone Hin. rewrite Hmap in Hin.
  apply filter_In in Hin. destruct Hin as [_ Hpub].
  unfold publishable in Hpub. rewrite Hnone in Hpub. discriminate.
Qed.

Lemma updateBacklinkState_frame (results : list FileResult) (p : Plugin) :
  let p1 := updateBacklinkState results p in
  liveSyncHashes (settings p1) = liveSyncHashes (settings p)
  /\ isSyncing p1 = isSyncing p
  /\ liveSyncQueue p1 = liveSyncQueue p
  /\ liveSyncTimeout p1 = liveSyncTimeout p
  /\ statusBarEl p1 = statusBarEl p.
Proof.
  unfold updateBacklinkState.
  destruct (fold_left backlinkEntry results _) as [st mut].
  destruct mut; simpl; tauto.
Qed.

Lemma doPublishResume_frame (publishFilter : option string) (skipCleanup : option bool)
    (adrFiles : list FileResult) (p : Plugin) (w : World) :
  let p1 := fst (fst (doPublishResume publishFilter skipCleanup adrFiles p w)) in
  liveSyncHashes (settings p1) = liveSyncHashes (settings p)
  /\ isSyncing p1 = isSyncing p
  /\ liveSyncQueue p1 = liveSyncQueue p
  /\ liveSyncTimeout p1 = liveSyncTimeout p
  /\ statusBarEl p1 = statusBarEl p.
Proof.
  unfold doPublishResume.
  destruct (negb _).
  - pose proof (removeBacklinkOrphans_frame (map absoluteFilePath adrFiles) p w) as Hsweep.
    destruct (removeBacklinkOrphans _ p w) as [p' stats]. simpl in Hsweep.
    pose proof (updateBacklinkState_frame adrFiles p') as Hupd.
    simpl in *. intuition congruence.
  - pose proof (updateBacklinkState_frame adrFiles p) as Hupd.
    simpl in *. tauto.
Qed.

Lemma doPublish_hashes (publishFilter : option string) (skipCleanup : option bool)
    (p : Plugin) (w : World) :
  liveSyncHashes (settings (fst (fst (doPublish publishFilter skipCleanup p w))))
  = liveSyncHashes (settings p).
Proof.
  unfold doPublish.
  destruct (publish w publishFilter) as [w1 [error|adrFiles]]; [reflexivity|].
  pose proof (doPublishResume_frame publishFilter skipCleanup adrFiles p w1) as Hframe.
  destruct (doPublishResume publishFilter skipCleanup adrFiles p w1) as [[p2 w2] res].
  simpl in *. tauto.
Qed.

Lemma target_not_in_snoc (path : string) (t : Target) (done : list Target) :
  ~ In path (map targetPath (done ++ [t])) ->
  ~ In path (map targetPath done) /\ path <> targetPath t.
Proof.
  rewrite map_app, in_app_iff; simpl. intros Hn.
  split; [tauto|]. intros ->. tauto.
Qed.

Lemma PublishInv_step (hashes0 : Dict.t) (done : list Target) (t : Target) (l : PublishLoop) :
  PublishInv hashes0 done l -> PublishInv hashes0 (done ++ [t]) (publishTarget l t).
Proof.
  unfold PublishInv. intros (Hatt & Hframe & Hdone).
  unfold publishTarget.
  pose proof (doPublish_hashes (Some (targetPath t)) (Some true) (loopPlugin l) (loopWorld l))
    as Hsame.
  destruct (doPublish (Some (targetPath t)) (Some true) (loopPlugin l) (loopWorld l))
    as [[p1 w1] outcome].
  simpl in Hsame.
  assert (Hold : forall t' ok, In (t', ok) (attempts l) -> In (targetPath t') (map targetPath done)).
  { intros t' ok Hin. apply in_map. rewrite <- Hatt.
    change t' with (fst (t', ok)). now apply in_map. }
  assert (Hcases :
    (publishSucceeded outcome = true
     /\ afterPublish t outcome p1 (hashesUpdated l)
        = (set_settings
             (set_liveSyncHashes
                (Dict.set (targetPath t) (targetHash t) (liveSyncHashes (settings p1)))
                (settings p1)) p1, true))
    \/ (publishSucceeded outcome = false
        /\ afterPublish t outcome p1 (hashesUpdated l) = (p1, hashesUpdated l))).
  { destruct outcome as [error|result]; simpl; [now right|].
    destruct (failedFiles result); [now left|now right]. }
  destruct Hcases as [[Hok ->]|[Hok ->]]; rewrite Hok; simpl.
  - split; [now rewrite map_app, Hatt|]. split.
    + intros path Hn. apply target_not_in_snoc in Hn. destruct Hn as [Hn Hne].
      rewrite get_set_other by exact Hne. rewrite Hsame. now apply Hframe.
    + intros Hnd t' ok Hin.
      rewrite map_app in Hnd; simpl in Hnd. apply NoDup_snoc in Hnd.
      destruct Hnd as [Hnd Hfresh].
      apply in_app_iff in Hin. destruct Hin as [Hin|[Heq|[]]].
      * rewrite get_set_other.
        -- rewrite Hsame. now apply Hdone.
        -- intros Heq. apply Hfresh. rewrite <- Heq. now apply (Hold t' ok).
      * inversion Heq; subst. apply get_set_same.
  - split; [now rewrite map_app, Hatt|]. split.
    + intros path Hn. apply target_not_in_snoc in Hn. destruct Hn as [Hn Hne].
      rewrite Hsame. now apply Hframe.
    + intros Hnd t' ok Hin.
      rewrite map_app in Hnd; simpl in Hnd. apply NoDup_snoc in Hnd.
      destruct Hnd as [Hnd Hfresh].
      apply in_app_iff in Hin. destruct Hin as [Hin|[Heq|[]]].
      * rewrite Hsame. now apply Hdone.
      * inversion Heq; subst. rewrite Hsame. now apply Hframe.
Qed.

(** C5, as the code has it (hash table effects of publishing). In the
    publish loop of a flush, over targets of distinct paths: every
    target is attempted once; a target whose [doPublish] returned
    without failed file ends with its fingerprint in [liveSyncHashes]; a
    target whose [doPublish] threw or reported a failed file ends with
    the entry it had; the entries of all other paths are untouched.
    [doPublish] itself, hence a publish started from the ribbon or from
    a command, leaves [liveSyncHashes] as it was, on success too. *)
Theorem publish_hash_effects :
  (forall targets p w,
      NoDup (map targetPath targets) ->
      let l := publishTargets targets p w in
      let hashes0 := liveSyncHashes (settings p) in
      let hashes1 := liveSyncHashes (settings (loopPlugin l)) in
      map fst (attempts l) = targets
      /\ (forall t, In (t, true) (attempts l) ->
            Dict.get (targetPath t) hashes1 = Some (targetHash t))
      /\ (forall t, In (t, false) (attempts l) ->
            Dict.get (targetPath t) hashes1 = Dict.get (targetPath t) hashes0)
      /\ (forall path, ~ In path (map targetPath targets) ->
            Dict.get path hashes1 = Dict.get path hashes0))
  /\ (forall publishFilter skipCleanup p w,
      liveSyncHashes (settings (fst (fst (doPublish publishFilter skipCleanup p w))))
      = liveSyncHashes (settings p))
  /\ (forall publishFilter p w,
      liveSyncHashes (settings (fst (manualPublish publishFilter p w)))
      = liveSyncHashes (settings p)).
Proof.
  split; [|split].
  - intros targets p w Hnd l hashes0 hashes1.
    assert (Hinv : PublishInv hashes0 targets l).
    { subst l. unfold publishTargets.
      apply (fold_left_invariant publishTarget (PublishInv hashes0)
               (PublishInv_step hashes0) targets []).
      unfold PublishInv; simpl. repeat split; auto. intros _ t ok []. }
    destruct Hinv as (Hatt & Hframe & Hdone). fold hashes1 in Hframe, Hdone.
    split; [exact Hatt|]. split; [|split; [|exact Hframe]].
    + intros t Hin. exact (Hdone Hnd t true Hin).
    + intros t Hin. exact (Hdone Hnd t false Hin).
  - intros. apply doPublish_hashes.
  - intros publishFilter p w. unfold manualPublish.
    destruct (isSyncing p); [reflexivity|].
    pose proof (doPublish_hashes publishFilter None (set_isSyncing true p) w) as Hsame.
    destruct (doPublish publishFilter None (set_isSyncing true p) w) as [[p1 w1] outcome].
    simpl in *. exact Hsame.
Qed.

End PublishCycle.

(** ** Status bar and single flight *)

Section Scheduling.
Context `{Collaborators}.

Lemma updateStatusBar_label (st : BarState) (detail : option nat) (p : Plugin) :
  statusBarEl p <> None ->
  statusBarEl (updateStatusBar st detail p) = Some (statusLabel st detail).
Proof.
  unfold updateStatusBar. destruct (statusBarEl p); [reflexivity|congruence].
Qed.

Lemma updateStatusBar_frame (st : BarState) (detail : option nat) (p : Plugin) :
  let p1 := updateStatusBar st detail p in
  settings p1 = settings p /\ isSyncing p1 = isSyncing p
  /\ liveSyncQueue p1 = liveSyncQueue p /\ liveSyncTimeout p1 = liveSyncTimeout p.
Proof.
  unfold updateStatusBar. destruct (statusBarEl p); simpl; tauto.
Qed.

(** C9, as the code has it (status bar). With a status bar item in
    place, the label is what the last transition wrote, not a function
    of the queue and the flag: an accepted modify event writes
    Pending(n), n the size of the queue after the insertion, and leaves
    [isSyncing] as it is, set or not; a flush whose drain leaves targets
    sets [isSyncing] and writes Syncing(n), n the number of targets; a
    flush whose drain leaves none writes Idle; the end of a publish
    loop resets [isSyncing] and writes Idle when the queue is empty,
    and leaves the label alone when it is not; clearing the queue
    writes Idle unless [isSyncing] is set. *)
Theorem status_set_by_transitions (now : Z) (app : App) (p : Plugin) (w : World) :
  statusBarEl p <> None ->
  (forall f,
      liveSyncEnabled (settings p) = true ->
      shouldUseOnSaveSync (settings p) = true ->
      extension f = "md" ->
      isFileEligibleForLiveSync (settings p) app f = true ->
      let p1 := onVaultFileModified app (File f) p in
      liveSyncQueue p1 = StrSet.add (path f) (liveSyncQueue p)
      /\ isSyncing p1 = isSyncing p
      /\ statusBarEl p1 = Some (statusLabel pending (Some (StrSet.size (liveSyncQueue p1)))))
  /\ (forall path targets currentHash,
      let targets1 := targetStep (liveSyncHashes (settings p)) path currentHash targets in
      let r := flushAfterHash now app path [] targets currentHash p w in
      (targets1 <> [] ->
       isSyncing (fst (fst r)) = true
       /\ statusBarEl (fst (fst r)) = Some (statusLabel syncing (Some (List.length targets1)))
       /\ snd r <> None)
      /\ (targets1 = [] ->
          statusBarEl (fst (fst r)) = Some (statusLabel idle None) /\ snd r = None))
  /\ (forall upd,
      let p1 := fst (flushFinish now app upd p w) in
      isSyncing p1 = false
      /\ (liveSyncQueue p = [] -> statusBarEl p1 = Some (statusLabel idle None))
      /\ (liveSyncQueue p <> [] -> statusBarEl p1 = statusBarEl p))
  /\ statusBarEl (clearLiveSyncQueue p)
     = (if isSyncing p then statusBarEl p else Some (statusLabel idle None)).
Proof.
  intros Hbar. split; [|split; [|split]]; cycle 3.
  { unfold clearLiveSyncQueue; simpl.
    destruct (liveSyncTimeout p), (isSyncing p) eqn:Hs; simpl; rewrite ?Hs; simpl;
      try reflexivity; now apply updateStatusBar_label. }
  - intros f Hen Hsave Hext Hel p1. subst p1. unfold onVaultFileModified.
    rewrite Hen, Hsave, Hext, Hel. simpl.
    unfold scheduleLiveSync; simpl.
    pose proof (updateStatusBar_frame pending
                  (Some (StrSet.size (StrSet.add (path f) (liveSyncQueue p))))
                  (set_liveSyncQueue (StrSet.add (path f) (liveSyncQueue p)) p)) as Hfr.
    simpl in Hfr. destruct Hfr as (_ & Hsync & Hq & _).
    rewrite Hq, Hsync. repeat split.
    now rewrite updateStatusBar_label.
  - intros path targets currentHash targets1 r. subst r. unfold flushAfterHash.
    fold targets1. split.
    + intros Hne. destruct targets1 as [|t ts]; [congruence|]. simpl fst; simpl snd.
      pose proof (updateStatusBar_frame syncing (Some (List.length (t :: ts)))
                    (set_isSyncing true p)) as Hfr.
      simpl in Hfr. destruct Hfr as (_ & Hsync & _).
      split; [exact Hsync|]. split; [|discriminate].
      now rewrite updateStatusBar_label.
    + intros ->.
      pose proof (maybeRunOrphanCleanup_frame false now app p w) as Hfr.
      destruct (maybeRunOrphanCleanup false now app p w) as [[p1 w1] ran].
      simpl in *. destruct Hfr as (_ & _ & _ & _ & Hb).
      split; [|reflexivity].
      apply updateStatusBar_label. now rewrite Hb.
  - intros upd p1. subst p1. unfold flushFinish.
    set (pa := if upd then saveData p else p).
    assert (Hpa : liveSyncQueue pa = liveSyncQueue p /\ statusBarEl pa = statusBarEl p)
      by (subst pa; destruct upd; simpl; tauto).
    destruct Hpa as [Hq Hb].
    set (pb := match liveSyncQueue (set_isSyncing false pa) with
               | [] => updateStatusBar idle None (set_isSyncing false pa)
               | _ :: _ => set_isSyncing false pa
               end).
    pose proof (maybeRunOrphanCleanup_frame false now app pb w) as Hfr.
    destruct (maybeRunOrphanCleanup false now app pb w) as [[p4 w4] ran].
    simpl in Hfr. destruct Hfr as (_ & Hsync & _ & _ & Hbar4). simpl.
    rewrite Hsync, Hbar4. subst pb. simpl. rewrite Hq.
    destruct (liveSyncQueue p) as [|x q].
    + pose proof (updateStatusBar_frame idle None (set_isSyncing false pa)) as Hfr.
      simpl in Hfr. destruct Hfr as (_ & Hs & _).
      split; [exact Hs|]. split; [|congruence].
      intros _. apply updateStatusBar_label. simpl. now rewrite Hb.
    + simpl. split; [reflexivity|]. split; [discriminate|]. intros _. exact Hb.
Qed.


End Scheduling.

(** ** The statements on the small vault *)



(** A modify event on the folder [Docs]. *)
Lemma modify_ignored_witness :
  (forall f, Folder "Docs" <> File f)
  /\ onVaultFileModified (H := Demo.remote) Demo.app (Folder "Docs") Demo.started
     = Demo.started.
Proof.
  assert (Hfolder : forall f, Folder "Docs" <> File f) by (intros f; discriminate).
  split; [exact Hfolder|].
  apply (modify_ignored (H := Demo.remote) Demo.app (Folder "Docs") Demo.started).
  right; right; left. exact Hfolder.
Defined.

(** [Other/c.md] lies outside the folder and links to the key. *)
Lemma eligibility_follows_rules_witness :
  Js.trim (folderToPublish Demo.config) = folderToPublish Demo.config
  /\ isFileEligibleForLiveSync (H := Demo.remote) Demo.config Demo.app Demo.c_md
     = eligibleByRules (H := Demo.remote) "Docs/" "atlassian" "Other/c.md" ["Atlassian"] []
  /\ eligibleByRules (H := Demo.remote) "Docs/" "atlassian" "Other/c.md" ["Atlassian"] []
     = true.
Proof.
  split; [reflexivity|]. split; [|reflexivity].
  exact (eligibility_follows_rules (H := Demo.remote) Demo.config Demo.app Demo.c_md eq_refl).
Defined.

(** [Docs/b.md] is saved while a cycle is in flight. *)
Lemma status_set_by_transitions_witness :
  let p1 := onVaultFileModified (H := Demo.remote) Demo.app (File Demo.b_md) Demo.busy in
  statusBarEl Demo.busy <> None
  /\ isSyncing p1 = true
  /\ statusBarEl p1 = Some "Confluence: Pending (2)".
Proof.
  intros p1.
  assert (Hbar : statusBarEl Demo.busy <> None) by discriminate.
  split; [exact Hbar|].
  destruct (status_set_by_transitions (H := Demo.remote) 1000 Demo.app Demo.busy tt Hbar)
    as (Hmodify & _).
  destruct (Hmodify Demo.b_md eq_refl eq_refl eq_refl eq_refl) as (_ & Hsync & Hlabel).
  split; [exact Hsync|exact Hlabel].
Defined.


(** ** Where the code departs from the specification *)


(** C3 as stated fails: [Other/c.md] is eligible and queued, its content
    cannot be read, and the drain leaves it out of the targets. *)
Lemma drain_drops_unreadable :
  isFileEligibleForLiveSync (H := Demo.remote) Demo.config Demo.app Demo.c_md = true
  /\ computeFileHash (H := Demo.remote) Demo.app "Other/c.md" = None
  /\ drainTargets (H := Demo.remote) Demo.app (liveSyncHashes Demo.config)
       ["Docs/a.md"; "Other/c.md"]
     = [{| targetPath := "Docs/a.md"; targetHash := "md5:alpha" |}].
Proof.
  repeat split; reflexivity.
Qed.

(** C5 as stated fails: a publish from the ribbon uploads [Docs/a.md]
    without failed file, and [liveSyncHashes] has no entry for it
    afterwards. *)
Lemma manual_publish_leaves_hashes :
  let r := doPublish (H := Demo.remote) None None (set_isSyncing true Demo.started) tt in
  publishSucceeded (snd r) = true
  /\ option_map filesUploadResult
       (match snd r with inr results => Some results | inl _ => None end)
     = Some ["uploaded"]
  /\ computeFileHash (H := Demo.remote) Demo.app "Docs/a.md" = Some "md5:alpha"
  /\ Dict.get "Docs/a.md" (liveSyncHashes (settings (fst (fst r)))) = None.
Proof.
  repeat split; reflexivity.
Qed.

(** C9 as stated fails: with the flush of [Docs/a.md] inside the
    publisher, a save of [Docs/b.md] turns the label to Pending. *)
Lemma pending_shown_while_syncing :
  option_map
    (fun m => (isSyncing (plugin m), publishInFlight m, liveSyncQueue (plugin m),
               statusBarEl (plugin m)))
    (run Demo.app Demo.machine Demo.saveWhileSyncing)
  = Some (true, 1, ["Docs/b.md"], Some "Confluence: Pending (1)").
Proof.
  reflexivity.
Qed.

(** * Further properties of the code *)

(** ** Trimming and the folder setting *)

Lemma dropTrailing_idempotent (keep : ascii -> bool) (s : string) :
  Js.dropTrailing keep (Js.dropTrailing keep s) = Js.dropTrailing keep s.
Proof.
  induction s as [|c r IH]; simpl; [reflexivity|].
  destruct (keep c && (Js.dropTrailing keep r =? "")%string) eqn:E; simpl; [reflexivity|].
  rewrite IH, E. reflexivity.
Qed.

Lemma dropTrailing_length (keep : ascii -> bool) (s : string) :
  String.length (Js.dropTrailing keep s) <= String.length s.
Proof.
  induction s as [|c r IH]; simpl; [lia|].
  destruct (keep c && (Js.dropTrailing keep r =? "")%string); simpl; lia.
Qed.

Lemma trimStart_length (s : string) :
  String.length (Js.trimStart s) <= String.length s.
Proof.
  induction s as [|c r IH]; simpl; [lia|].
  destruct (Js.isWhiteSpace c); simpl; lia.
Qed.

Lemma trimStart_fixed (s : string) :
  match s with
  | EmptyString => True
  | String c _ => Js.isWhiteSpace c = false
  end ->
  Js.trimStart s = s.
Proof.
  destruct s as [|c r]; simpl; [reflexivity|]. now intros ->.
Qed.

Lemma trimStart_clean (s : string) :
  match Js.trimStart s with
  | EmptyString => True
  | String c _ => Js.isWhiteSpace c = false
  end.
Proof.
  induction s as [|c r IH]; simpl; [exact I|].
  destruct (Js.isWhiteSpace c) eqn:E; [exact IH|exact E].
Qed.

Lemma trim_clean (s : string) :
  match Js.trim s with
  | EmptyString => True
  | String c _ => Js.isWhiteSpace c = false
  end.
Proof.
  unfold Js.trim, Js.trimEnd.
  pose proof (trimStart_clean s) as Hclean.
  destruct (Js.trimStart s) as [|c r]; simpl; [exact I|].
  rewrite Hclean. simpl. exact Hclean.
Qed.

Lemma trim_idempotent (s : string) : Js.trim (Js.trim s) = Js.trim s.
Proof.
  pose proof (trim_clean s) as Hclean.
  unfold Js.trim at 1. rewrite (trimStart_fixed _ Hclean).
  unfold Js.trim, Js.trimEnd. apply dropTrailing_idempotent.
Qed.

Lemma trim_fixed_clean (s : string) :
  Js.trim s = s ->
  match s with
  | EmptyString => True
  | String c _ => Js.isWhiteSpace c = false
  end.
Proof.
  intros Hfix. rewrite <- Hfix. apply trim_clean.
Qed.

Lemma append_not_empty (s : string) (c : ascii) :
  ((s ++ String c "")%string =? "")%string = false.
Proof.
  destruct s; reflexivity.
Qed.

(** A last character that is kept keeps everything before it. *)
Lemma dropTrailing_kept_last (keep : ascii -> bool) (s : string) (c : ascii) :
  keep c = false ->
  Js.dropTrailing keep (s ++ String c "")%string = (s ++ String c "")%string.
Proof.
  intros Hc. induction s as [|x r IH]; simpl.
  - now rewrite Hc.
  - rewrite IH, append_not_empty, andb_false_r. reflexivity.
Qed.

(** A last character that is dropped makes no difference. *)
Lemma dropTrailing_dropped_last (keep : ascii -> bool) (s : string) (c : ascii) :
  keep c = true ->
  Js.dropTrailing keep (s ++ String c "")%string = Js.dropTrailing keep s.
Proof.
  intros Hc. induction s as [|x r IH]; simpl.
  - now rewrite Hc.
  - now rewrite IH.
Qed.

Lemma append_slashes_assoc (s : string) (n : nat) :
  (s ++ slashes (S n))%string = ((s ++ "/") ++ slashes n)%string.
Proof.
  induction s as [|c r IH]; simpl; [reflexivity|].
  simpl in IH. now rewrite IH.
Qed.

Lemma trim_with_slash (folder : string) :
  Js.trim folder = folder -> Js.trim (folder ++ "/")%string = (folder ++ "/")%string.
Proof.
  intros Hfix. apply trim_fixed_clean in Hfix.
  unfold Js.trim, Js.trimEnd.
  rewrite trimStart_fixed.
  - now apply dropTrailing_kept_last.
  - destruct folder as [|c r]; simpl; [reflexivity|exact Hfix].
Qed.

Lemma normalizedFolder_with_slashes (folder : string) (n : nat) :
  Js.trim folder = folder ->
  Js.stripTrailingSlashes (Js.trim (folder ++ slashes n)%string)
  = Js.stripTrailingSlashes (Js.trim folder).
Proof.
  revert folder. induction n as [|n IH]; intros folder Hfix.
  - simpl. replace (folder ++ "")%string with folder; [reflexivity|].
    clear. induction folder as [|c r IHf]; simpl; [reflexivity|now rewrite <- IHf].
  - rewrite append_slashes_assoc.
    rewrite (IH (folder ++ "/")%string (trim_with_slash folder Hfix)).
    rewrite (trim_with_slash folder Hfix), Hfix.
    unfold Js.stripTrailingSlashes. now apply dropTrailing_dropped_last.
Qed.

Section FolderSetting.
Context `{Collaborators}.

Lemma eligibility_reads_normalized_folder (s s' : Settings) (app : App) (file : TFile) :
  keyBacklink s' = keyBacklink s ->
  Js.stripTrailingSlashes (Js.trim (folderToPublish s'))
  = Js.stripTrailingSlashes (Js.trim (folderToPublish s)) ->
  isFileEligibleForLiveSync s' app file = isFileEligibleForLiveSync s app file.
Proof.
  intros Hkey Hfolder.
  unfold isFileEligibleForLiveSync, getNormalizedBacklinkKey.
  now rewrite Hkey, Hfolder.
Qed.

(** X3. Separators typed after the folder name make no difference to the
    filter: with a trimmed folder setting, the same files are eligible
    for [Docs], [Docs/] and [Docs//]. *)
Theorem eligibility_ignores_trailing_separators (s : Settings) (n : nat) (app : App)
    (file : TFile) :
  Js.trim (folderToPublish s) = folderToPublish s ->
  isFileEligibleForLiveSync
    (set_folderToPublish (folderToPublish s ++ slashes n)%string s) app file
  = isFileEligibleForLiveSync s app file.
Proof.
  intros Hfix. apply eligibility_reads_normalized_folder; [reflexivity|].
  simpl. now apply normalizedFolder_with_slashes.
Qed.

Lemma loadSettings_normalized (libraryDefaultFolder : option string)
    (data : option SavedData) :
  normalized (loadSettings libraryDefaultFolder data).
Proof.
  unfold normalized, loadSettings; simpl.
  split; [|split; [lia|split; [lia|discriminate]]].
  destruct (assigned libraryDefaultFolder (loadedField data saved_folderToPublish));
    [apply trim_idempotent|reflexivity].
Qed.

(** X1. [loadSettings] always leaves the settings in normal form: folder
    trimmed, interval and cadence at least one, a last-cleanup time in
    place; and settings in normal form come back from [saveData]
    followed by [loadSettings] as they were. *)
Theorem settings_round_trip (libraryDefaultFolder : option string) :
  (forall data, normalized (loadSettings libraryDefaultFolder data))
  /\ (forall s, normalized s ->
        loadSettings libraryDefaultFolder (Some (savedSettings s)) = s).
Proof.
  split.
  - intros data. apply loadSettings_normalized.
  - intros s (Hfolder & Hmin & Hhours & Hts).
    destruct s as [key folder st en deb strat mins hours ts hashes]; simpl in *.
    unfold loadSettings; simpl.
    rewrite Hfolder, (Z.max_r 1 mins Hmin), (Z.max_r 1 hours Hhours).
    destruct ts as [t|]; [reflexivity|congruence].
Qed.

(** X2. Whatever was saved, the filter on the loaded settings is the outcome
    of the five rules on the loaded folder and key. *)
Theorem loaded_settings_follow_rules (libraryDefaultFolder : option string)
    (data : option SavedData) (app : App) (file : TFile) :
  let s := loadSettings libraryDefaultFolder data in
  isFileEligibleForLiveSync s app file
  = eligibleByRules (folderToPublish s) (keyBacklink s) (path file)
      (extractedLinks app file) (extractedEmbeds app file).
Proof.
  intros s. rewrite eligibility_on_trimmed_folder.
  destruct (loadSettings_normalized libraryDefaultFolder data) as [Hfix _].
  fold s in Hfix. now rewrite Hfix.
Qed.

End FolderSetting.

(** ** Backlink state and report of a publish *)

Lemma settings_same_backlinks (p : Plugin) :
  set_settings (set_backlinkPublishState (backlinkPublishState (settings p)) (settings p)) p
  = p.
Proof.
  destruct p as [s sync q timer bar client saves]. destruct s. reflexivity.
Qed.

Lemma backlinkEntry_effect (st : Dict.t) (mut : bool) (result : FileResult) :
  let acc := backlinkEntry (st, mut) result in
  Dict.get (absoluteFilePath result) (fst acc)
  = mappingAfter (Dict.get (absoluteFilePath result) st) result
  /\ (forall k, k <> absoluteFilePath result -> Dict.get k (fst acc) = Dict.get k st)
  /\ (acc = (st, mut) \/ snd acc = true).
Proof.
  unfold backlinkEntry, mappingAfter.
  destruct (pageId result =? "")%string eqn:Hid; simpl.
  - destruct (Dict.get (absoluteFilePath result) st) as [old|] eqn:Hold.
    + destruct (old =? "")%string eqn:Hempty; simpl.
      * apply String.eqb_eq in Hempty; subst old. rewrite Hold. auto.
      * split; [|split; [|now right]].
        -- rewrite get_remove_same.
           destruct old as [|c r]; [discriminate|reflexivity].
        -- intros k Hne. now apply get_remove_other.
    + simpl. rewrite Hold. auto.
  - destruct (Dict.get (absoluteFilePath result) st) as [old|] eqn:Hold.
    + destruct (old =? pageId result)%string eqn:Hsame; simpl.
      * apply String.eqb_eq in Hsame; subst old. rewrite Hold. auto.
      * split; [apply get_set_same|]. split; [|now right].
        intros k Hne. now apply get_set_other.
    + simpl. split; [apply get_set_same|]. split; [|now right].
      intros k Hne. now apply get_set_other.
Qed.

Lemma backlinkEntry_settled (st : Dict.t) (mut : bool) (before : option string)
    (result : FileResult) :
  Dict.get (absoluteFilePath result) st = mappingAfter before result ->
  backlinkEntry (st, mut) result = (st, mut).
Proof.
  unfold backlinkEntry, mappingAfter. intros Hget.
  destruct (pageId result =? "")%string eqn:Hid; simpl in *.
  - rewrite Hget. destruct before as [[|c r]|]; reflexivity.
  - rewrite Hget. now rewrite String.eqb_refl.
Qed.

Lemma backlink_loop_settled (results : list FileResult) (st : Dict.t) (mut : bool) :
  (forall r, In r results ->
     exists before, Dict.get (absoluteFilePath r) st = mappingAfter before r) ->
  fold_left backlinkEntry results (st, mut) = (st, mut).
Proof.
  induction results as [|r l IH]; intros Hall; [reflexivity|].
  cbn [fold_left].
  destruct (Hall r (or_introl eq_refl)) as [before Hget].
  rewrite (backlinkEntry_settled st mut before r Hget).
  apply IH. intros r' Hin. apply Hall. now right.
Qed.

(** The loop of [updateBacklinkState] after the results [done], started
    from the state [st0]. *)
Lemma backlink_loop_invariant (st0 : Dict.t) (results : list FileResult) :
  let acc := fold_left backlinkEntry results (st0, false) in
  (forall k, ~ In k (map absoluteFilePath results) -> Dict.get k (fst acc) = Dict.get k st0)
  /\ (NoDup (map absoluteFilePath results) ->
      forall r, In r results ->
        Dict.get (absoluteFilePath r) (fst acc)
        = mappingAfter (Dict.get (absoluteFilePath r) st0) r).
Proof.
  apply (fold_left_invariant backlinkEntry
           (fun done acc =>
              (forall k, ~ In k (map absoluteFilePath done) ->
                 Dict.get k (fst acc) = Dict.get k st0)
              /\ (NoDup (map absoluteFilePath done) ->
                  forall r, In r done ->
                    Dict.get (absoluteFilePath r) (fst acc)
                    = mappingAfter (Dict.get (absoluteFilePath r) st0) r))
        ) with (done := []) (l := results).
  - intros done x [st mut] [Hframe Hdone].
    destruct (backlinkEntry_effect st mut x) as (Hget & Hother & _).
    simpl in *. split.
    + intros k Hn. rewrite map_app, in_app_iff in Hn; simpl in Hn.
      rewrite Hother by (intros ->; tauto). apply Hframe. tauto.
    + intros Hnd r Hin. rewrite map_app in Hnd; simpl in Hnd.
      apply NoDup_snoc in Hnd. destruct Hnd as [Hnd Hfresh].
      apply in_app_iff in Hin. destruct Hin as [Hin|[<-|[]]].
      * rewrite Hother; [now apply Hdone|].
        intros Heq. apply Hfresh. rewrite <- Heq. now apply in_map.
      * rewrite Hget. now rewrite (Hframe _ Hfresh).
  - simpl. split; [reflexivity|]. intros _ r [].
Qed.

Lemma updateBacklinkState_state (results : list FileResult) (p : Plugin) :
  backlinkPublishState (settings (updateBacklinkState results p))
  = fst (fold_left backlinkEntry results (backlinkPublishState (settings p), false)).
Proof.
  unfold updateBacklinkState.
  destruct (fold_left backlinkEntry results _) as [st mut].
  destruct mut; reflexivity.
Qed.

(** X4. After [updateBacklinkState], over results of distinct paths: each
    file with a page id is mapped to it; each file without one has no
    mapping left, except an empty one that was there; other paths keep
    their mapping. A second run on the same results changes nothing and
    does not save again, and a run saves at most once. *)
Theorem updateBacklinkState_records (results : list FileResult) (p : Plugin) :
  NoDup (map absoluteFilePath results) ->
  let st0 := backlinkPublishState (settings p) in
  let p1 := updateBacklinkState results p in
  let st1 := backlinkPublishState (settings p1) in
  (forall r, In r results ->
     Dict.get (absoluteFilePath r) st1 = mappingAfter (Dict.get (absoluteFilePath r) st0) r)
  /\ (forall k, ~ In k (map absoluteFilePath results) -> Dict.get k st1 = Dict.get k st0)
  /\ updateBacklinkState results p1 = p1
  /\ saveCount p1 <= S (saveCount p).
Proof.
  intros Hnd st0 p1 st1.
  pose proof (updateBacklinkState_state results p) as Hst. fold st0 p1 st1 in Hst.
  destruct (backlink_loop_invariant st0 results) as [Hframe Hdone].
  rewrite <- Hst in Hframe, Hdone.
  split; [exact (Hdone Hnd)|]. split; [exact Hframe|]. split.
  - unfold updateBacklinkState at 1. fold st1.
    rewrite backlink_loop_settled.
    + apply settings_same_backlinks.
    + intros r Hin. eexists. exact (Hdone Hnd r Hin).
  - subst p1. unfold updateBacklinkState.
    destruct (fold_left backlinkEntry results _) as [st mut].
    destruct mut; simpl; lia.
Qed.

Lemma flat_map_one_each (adrFiles : list FileResult) :
  List.length (flat_map failureOf adrFiles) + List.length (flat_map uploadOf adrFiles)
  = List.length adrFiles.
Proof.
  induction adrFiles as [|x l IH]; simpl; [reflexivity|].
  rewrite !length_app.
  assert (Hone : List.length (failureOf x) + List.length (uploadOf x) = 1)
    by (unfold failureOf, uploadOf; destruct (successfulUploadResult x); reflexivity).
  lia.
Qed.

Section PublishReport.
Context `{Collaborators}.

(** X6. The report of [doPublish] holds every file of the publisher's result
    once, in the publisher's order: among the uploads when it has an
    upload result, else among the failed files with its reason, or "No
    Reason Provided" when it has none; it carries no error message. *)
Theorem report_partitions_results (publishFilter : option string) (skipCleanup : option bool)
    (adrFiles : list FileResult) (p : Plugin) (w : World) :
  let report := snd (doPublishResume publishFilter skipCleanup adrFiles p w) in
  failedFiles report = flat_map failureOf adrFiles
  /\ filesUploadResult report = flat_map uploadOf adrFiles
  /\ errorMessage report = None
  /\ List.length (failedFiles report) + List.length (filesUploadResult report)
     = List.length adrFiles.
Proof.
  intros report.
  assert (Hreport : report = reportOf adrFiles).
  { subst report. unfold doPublishResume.
    destruct (negb _); [destruct (removeBacklinkOrphans _ p w)|]; reflexivity. }
  assert (Hinv : failedFiles (reportOf adrFiles) = flat_map failureOf adrFiles
                 /\ filesUploadResult (reportOf adrFiles) = flat_map uploadOf adrFiles
                 /\ errorMessage (reportOf adrFiles) = None).
  { unfold reportOf.
    apply (fold_left_invariant collectResult
             (fun done r =>
                failedFiles r = flat_map failureOf done
                /\ filesUploadResult r = flat_map uploadOf done
                /\ errorMessage r = None)) with (done := []) (l := adrFiles).
    - intros done x r (Hf & Hu & He).
      rewrite !flat_map_app; simpl. rewrite !app_nil_r.
      unfold collectResult, failureOf, uploadOf.
      destruct (successfulUploadResult x); simpl; rewrite ?app_nil_r, Hf, Hu;
        repeat split; auto.
    - repeat split. }
  rewrite Hreport. destruct Hinv as (Hf & Hu & He).
  repeat split; auto. rewrite Hf, Hu. apply flat_map_one_each.
Qed.

(** X5. After [doPublish] has its result, over files of distinct paths:
    every file the publisher returned with a page id is mapped to that
    id, whether the orphan cleanup ran or not. When the cleanup is
    skipped (asked for, or a non-empty filter without options), the
    remote is not called and paths outside the result keep their
    mapping. *)
Theorem doPublish_records_page_ids (publishFilter : option string)
    (skipCleanup : option bool) (adrFiles : list FileResult) (p : Plugin) (w : World) :
  NoDup (map absoluteFilePath adrFiles) ->
  let st0 := backlinkPublishState (settings p) in
  let r := doPublishResume publishFilter skipCleanup adrFiles p w in
  let st1 := backlinkPublishState (settings (fst (fst r))) in
  (forall f, In f adrFiles -> pageId f <> "" ->
     Dict.get (absoluteFilePath f) st1 = Some (pageId f))
  /\ (orDefault skipCleanup (truthyFilter publishFilter) = true ->
      snd (fst r) = w
      /\ forall k, ~ In k (map absoluteFilePath adrFiles) -> Dict.get k st1 = Dict.get k st0).
Proof.
  intros Hnd st0 r st1. subst r st1. unfold doPublishResume.
  change (match skipCleanup with
          | Some b => b
          | None => truthyFilter publishFilter
          end) with (orDefault skipCleanup (truthyFilter publishFilter)).
  destruct (orDefault skipCleanup (truthyFilter publishFilter)); simpl.
  - rewrite updateBacklinkState_state.
    destruct (backlink_loop_invariant st0 adrFiles) as [Hframe Hdone].
    split.
    + intros f Hin Hid. fold st0. rewrite (Hdone Hnd f Hin).
      unfold mappingAfter.
      destruct (pageId f =? "")%string eqn:E; [|reflexivity].
      apply String.eqb_eq in E. contradiction.
    + intros _. split; [reflexivity|exact Hframe].
  - destruct (removeBacklinkOrphans (map absoluteFilePath adrFiles) p w) as [p' stats].
    simpl. rewrite updateBacklinkState_state.
    destruct (backlink_loop_invariant (backlinkPublishState (settings p')) adrFiles)
      as [Hframe Hdone].
    split; [|discriminate].
    intros f Hin Hid. rewrite (Hdone Hnd f Hin).
    unfold mappingAfter.
    destruct (pageId f =? "")%string eqn:E; [|reflexivity].
    apply String.eqb_eq in E. contradiction.
Qed.

End PublishReport.

(** ** More on the orphan sweep *)

Lemma is404_iff (c : option Z) : is404 c = true <-> c = Some 404%Z.
Proof.
  destruct c as [n|]; simpl.
  - rewrite Z.eqb_eq. split; [now intros ->|]. intros Heq. now inversion Heq.
  - split; discriminate.
Qed.

(** X7. What the classifier takes for not-found, and nothing else: an
    [HTTPError] exactly when its status is 404, whatever its message; a
    string when it holds a marker; another object when one of the four
    status codes is 404 or its message holds a marker; never a falsy
    value. *)
Theorem not_found_classifier (error : Thrown) :
  isConfluenceNotFound error = true <->
  match error with
  | Falsy => False
  | HTTPError status _ => status = 404%Z
  | Str s => hasNotFoundMarker s = true
  | Obj _ e =>
      statusCode e = Some 404%Z
      \/ body_statusCode e = Some 404%Z
      \/ response_status e = Some 404%Z
      \/ response_data_statusCode e = Some 404%Z
      \/ exists m, message e = Some m /\ hasNotFoundMarker m = true
  end.
Proof.
  destruct error as [|s|status m|isError e]; simpl.
  - split; [discriminate|contradiction].
  - destruct (s =? "")%string eqn:Hempty; [|tauto].
    apply String.eqb_eq in Hempty; subst s. split; discriminate.
  - apply Z.eqb_eq.
  - rewrite <- !is404_iff.
    destruct (is404 (statusCode e)); [tauto|].
    destruct (is404 (body_statusCode e)); [tauto|].
    destruct (is404 (response_status e)); [tauto|].
    destruct (is404 (response_data_statusCode e)); [tauto|].
    destruct (message e) as [m|].
    + destruct (m =? "")%string eqn:Hempty.
      * apply String.eqb_eq in Hempty; subst m.
        split; [discriminate|].
        intros [H1|[H1|[H1|[H1|[m [Hm Hmark]]]]]]; try discriminate.
        inversion Hm; subst m. discriminate.
      * split.
        -- intros Hmark. do 4 right. now exists m.
        -- intros [H1|[H1|[H1|[H1|[m' [Hm Hmark]]]]]]; try discriminate.
           now inversion Hm; subst m'.
    + split; [discriminate|].
      intros [H1|[H1|[H1|[H1|[m [Hm _]]]]]]; discriminate.
Qed.

Section SweepAccounts.
Context `{Collaborators}.

Lemma removeBacklinkOrphans_keeps (eligible : StrSet.t) (p : Plugin) (w : World)
    (path : string) :
  StrSet.has path eligible = true ->
  Dict.get path (backlinkPublishState (settings (fst (removeBacklinkOrphans eligible p w))))
  = Dict.get path (backlinkPublishState (settings p)).
Proof.
  intros Hhas. unfold removeBacklinkOrphans.
  destruct (staleEntriesOf _ eligible) as [|e l] eqn:Hstale; [reflexivity|].
  destruct (confluenceClient p); simpl; [|reflexivity].
  destruct (SweepInv_loop (backlinkPublishState (settings p)) (e :: l) w) as (_ & Hfr & _).
  assert (Hget : Dict.get path
                   (state (fold_left sweepEntry (e :: l)
                             (sweepStart (backlinkPublishState (settings p)) w)))
                 = Dict.get path (backlinkPublishState (settings p))).
  { apply Hfr. rewrite <- Hstale. now apply eligible_not_stale. }
  destruct (mutated _); simpl; exact Hget.
Qed.

(** X9. The cleanup trigger, forced or not, never touches the mapping of a
    note of the vault that the filter accepts. *)
Theorem cleanup_keeps_eligible_notes (force : bool) (now : Z) (app : App) (p : Plugin)
    (w : World) (file : TFile) :
  In file (getMarkdownFiles app) ->
  isFileEligibleForLiveSync (settings p) app file = true ->
  Dict.get (path file)
    (backlinkPublishState (settings (fst (fst (maybeRunOrphanCleanup force now app p w)))))
  = Dict.get (path file) (backlinkPublishState (settings p)).
Proof.
  intros Hin Hel. unfold maybeRunOrphanCleanup.
  destruct (negb force && _); [reflexivity|].
  pose proof (removeBacklinkOrphans_keeps
                (collectEligibleLiveSyncPaths (settings p) app) p w (path file)) as Hkeep.
  destruct (removeBacklinkOrphans _ p w) as [p1 stats]. simpl in *.
  apply Hkeep. unfold StrSet.has. apply existsb_exists.
  exists (path file). split; [|apply String.eqb_refl].
  unfold collectEligibleLiveSyncPaths. apply in_map. apply filter_In. now split.
Qed.

End SweepAccounts.

(** ** The queue as a set *)

Lemma has_In (x : string) (q : StrSet.t) : StrSet.has x q = true <-> In x q.
Proof.
  unfold StrSet.has. rewrite existsb_exists. split.
  - intros [y [Hin Heq]]. apply String.eqb_eq in Heq. now subst y.
  - intros Hin. exists x. split; [exact Hin|apply String.eqb_refl].
Qed.

Lemma add_In (x y : string) (q : StrSet.t) : In y (StrSet.add x q) <-> y = x \/ In y q.
Proof.
  unfold StrSet.add. destruct (StrSet.has x q) eqn:Hhas.
  - apply has_In in Hhas. split; [tauto|]. intros [->|Hin]; assumption.
  - rewrite in_app_iff; simpl. split; [intros [Hin|[<-|[]]]; auto|].
    intros [->|Hin]; auto.
Qed.

Lemma add_NoDup (x : string) (q : StrSet.t) : NoDup q -> NoDup (StrSet.add x q).
Proof.
  intros Hnd. unfold StrSet.add. destruct (StrSet.has x q) eqn:Hhas; [exact Hnd|].
  apply NoDup_app; [exact Hnd|repeat constructor; intros []|].
  intros y Hin [<-|[]]. apply has_In in Hin. congruence.
Qed.

Lemma enqueueAll_In (paths : list string) (q : StrSet.t) (y : string) :
  In y (enqueueAll paths q) <-> In y q \/ In y paths.
Proof.
  unfold enqueueAll. revert q.
  induction paths as [|x l IH]; simpl; intros q; [tauto|].
  rewrite IH, add_In. split; intros Hin; intuition (subst; auto).
Qed.

Lemma enqueueAll_NoDup (paths : list string) (q : StrSet.t) :
  NoDup q -> NoDup (enqueueAll paths q).
Proof.
  unfold enqueueAll. revert q.
  induction paths as [|x l IH]; simpl; intros q Hnd; [exact Hnd|].
  apply IH. now apply add_NoDup.
Qed.

Section QueueInvariant.
Context `{Collaborators}.

Lemma onVaultFileModified_queue (app : App) (file : TAbstractFile) (p : Plugin) :
  let p1 := onVaultFileModified app file p in
  isSyncing p1 = isSyncing p
  /\ settings p1 = settings p
  /\ (liveSyncQueue p1 = liveSyncQueue p
      \/ exists f, file = File f /\ liveSyncQueue p1 = StrSet.add (path f) (liveSyncQueue p)).
Proof.
  unfold onVaultFileModified.
  destruct (negb _ || negb _); [simpl; auto|].
  destruct file as [f|d]; [|simpl; auto].
  destruct (negb (extension f =? "md")%string); [simpl; auto|].
  destruct (negb (isFileEligibleForLiveSync (settings p) app f)); [simpl; auto|].
  unfold scheduleLiveSync; simpl.
  pose proof (updateStatusBar_frame pending
                (Some (StrSet.size (StrSet.add (path f) (liveSyncQueue p))))
                (set_liveSyncQueue (StrSet.add (path f) (liveSyncQueue p)) p)) as Hfr.
  simpl in Hfr. destruct Hfr as (Hs & Hsync & Hq & _).
  rewrite Hs, Hsync, Hq. split; [reflexivity|]. split; [reflexivity|].
  right. now exists f.
Qed.

Lemma clearLiveSyncQueue_frame (p : Plugin) :
  let p1 := clearLiveSyncQueue p in
  liveSyncQueue p1 = [] /\ liveSyncTimeout p1 = None
  /\ isSyncing p1 = isSyncing p /\ settings p1 = settings p.
Proof.
  unfold clearLiveSyncQueue; simpl.
  destruct (liveSyncTimeout p) eqn:Ht; simpl;
    destruct (isSyncing p) eqn:Hs; simpl; rewrite ?Hs; simpl; auto;
    unfold updateStatusBar; simpl; destruct (statusBarEl p); simpl; auto.
Qed.

Lemma flushStart_queue (now : Z) (app : App) (p : Plugin) (w : World) :
  let p1 := fst (fst (flushStart now app p w)) in
  liveSyncQueue p1 = liveSyncQueue p \/ liveSyncQueue p1 = [].
Proof.
  unfold flushStart.
  destruct (negb (liveSyncEnabled (settings p))); simpl.
  - right. apply clearLiveSyncQueue_frame.
  - destruct (liveSyncQueue p) as [|x q] eqn:Hq.
    + pose proof (maybeRunOrphanCleanup_frame false now app p w) as Hfr.
      destruct (maybeRunOrphanCleanup false now app p w) as [[p1 w1] ran].
      simpl in *. destruct Hfr as (_ & _ & Hq1 & _).
      right. destruct (negb (isSyncing p1)); [|congruence].
      destruct (updateStatusBar_frame idle None p1) as (_ & _ & Hq2 & _). congruence.
    + destruct (isSyncing p); simpl; [left; exact Hq|now right].
Qed.

Lemma flushAfterHash_queue (now : Z) (app : App) (path : string) (rest : list string)
    (targets : list Target) (currentHash : option string) (p : Plugin) (w : World) :
  liveSyncQueue (fst (fst (flushAfterHash now app path rest targets currentHash p w)))
  = liveSyncQueue p.
Proof.
  unfold flushAfterHash.
  destruct rest as [|next rest1]; [|reflexivity].
  destruct (targetStep _ path currentHash targets) as [|t ts].
  - pose proof (maybeRunOrphanCleanup_frame false now app p w) as Hfr.
    destruct (maybeRunOrphanCleanup false now app p w) as [[p1 w1] ran].
    simpl in *. destruct Hfr as (_ & _ & Hq1 & _).
    destruct (updateStatusBar_frame idle None p1) as (_ & _ & Hq2 & _). congruence.
  - simpl.
    destruct (updateStatusBar_frame syncing (Some (S (List.length ts)))
                (set_isSyncing true p)) as (_ & _ & Hq & _).
    exact Hq.
Qed.

Lemma afterPublish_frame (target : Target) (outcome : Thrown + UploadResults)
    (p : Plugin) (upd : bool) :
  let p1 := fst (afterPublish target outcome p upd) in
  liveSyncQueue p1 = liveSyncQueue p /\ isSyncing p1 = isSyncing p
  /\ statusBarEl p1 = statusBarEl p /\ liveSyncTimeout p1 = liveSyncTimeout p.
Proof.
  unfold afterPublish.
  destruct outcome as [error|result]; [simpl; auto|].
  destruct (failedFiles result); simpl; auto.
Qed.

Lemma flushFinish_frame (now : Z) (app : App) (upd : bool) (p : Plugin) (w : World) :
  let p1 := fst (flushFinish now app upd p w) in
  liveSyncQueue p1 = liveSyncQueue p /\ isSyncing p1 = false
  /\ liveSyncTimeout p1 = liveSyncTimeout p.
Proof.
  unfold flushFinish.
  set (pa := if upd then saveData p else p).
  assert (Hpa : liveSyncQueue pa = liveSyncQueue p /\ liveSyncTimeout pa = liveSyncTimeout p)
    by (subst pa; destruct upd; simpl; auto).
  destruct Hpa as [Hq Ht].
  set (pb := match liveSyncQueue (set_isSyncing false pa) with
             | [] => updateStatusBar idle None (set_isSyncing false pa)
             | _ :: _ => set_isSyncing false pa
             end).
  assert (Hpb : liveSyncQueue pb = liveSyncQueue p /\ isSyncing pb = false
                /\ liveSyncTimeout pb = liveSyncTimeout p).
  { subst pb. simpl. destruct (liveSyncQueue pa) eqn:Hqa; simpl.
    - destruct (updateStatusBar_frame idle None (set_isSyncing false pa))
        as (_ & Hs & Hq' & Ht').
      simpl in *. rewrite Hq', Hs, Ht'. rewrite <- Hq. auto.
    - rewrite <- Hq. auto. }
  pose proof (maybeRunOrphanCleanup_frame false now app pb w) as Hfr.
  destruct (maybeRunOrphanCleanup false now app pb w) as [[p4 w4] ran].
  simpl in *. destruct Hfr as (_ & Hs4 & Hq4 & Ht4 & _).
  destruct Hpb as (Hqb & Hsb & Htb). repeat split; congruence.
Qed.

Lemma flushAfterPublish_queue (now : Z) (app : App) (target : Target) (rest : list Target)
    (upd : bool) (settled : Thrown + list FileResult) (p : Plugin) (w : World) :
  liveSyncQueue (fst (fst (flushAfterPublish now app target rest upd settled p w)))
  = liveSyncQueue p.
Proof.
  unfold flushAfterPublish.
  assert (Hres : forall adrFiles,
            liveSyncQueue
              (fst (fst (doPublishResume (Some (targetPath target)) (Some true) adrFiles p w)))
            = liveSyncQueue p)
    by (intros adrFiles; apply doPublishResume_frame).
  destruct settled as [error|adrFiles].
  - pose proof (afterPublish_frame target (inl error) p upd) as Hap.
    destruct (afterPublish target (inl error) p upd) as [p2 upd2]. simpl in Hap.
    destruct Hap as (Hq2 & _).
    destruct rest as [|next rest1]; [|exact Hq2].
    pose proof (flushFinish_frame now app upd2 p2 w) as Hfin.
    destruct (flushFinish now app upd2 p2 w) as [p3 w3]. simpl in *.
    destruct Hfin as (Hq3 & _). congruence.
  - specialize (Hres adrFiles).
    destruct (doPublishResume (Some (targetPath target)) (Some true) adrFiles p w)
      as [[p' w'] returnVal]. simpl in Hres.
    pose proof (afterPublish_frame target (inr returnVal) p' upd) as Hap.
    destruct (afterPublish target (inr returnVal) p' upd) as [p2 upd2]. simpl in Hap.
    destruct Hap as (Hq2 & _).
    destruct rest as [|next rest1]; [|simpl; congruence].
    pose proof (flushFinish_frame now app upd2 p2 w') as Hfin.
    destruct (flushFinish now app upd2 p2 w') as [p3 w3]. simpl in *.
    destruct Hfin as (Hq3 & _). congruence.
Qed.

Lemma manualAfterPublish_queue (publishFilter : option string)
    (settled : Thrown + list FileResult) (p : Plugin) (w : World) :
  liveSyncQueue (fst (manualAfterPublish publishFilter settled p w)) = liveSyncQueue p.
Proof.
  unfold manualAfterPublish.
  destruct settled as [error|adrFiles]; [reflexivity|].
  pose proof (doPublishResume_frame publishFilter None adrFiles p w) as Hfr.
  destruct (doPublishResume publishFilter None adrFiles p w) as [[p1 w1] res].
  simpl in *. tauto.
Qed.

Lemma step_queue (app : App) (m m1 : Machine) (e : Event) :
  step app m e = Some m1 ->
  liveSyncQueue (plugin m1) = liveSyncQueue (plugin m)
  \/ liveSyncQueue (plugin m1) = []
  \/ exists x, liveSyncQueue (plugin m1) = StrSet.add x (liveSyncQueue (plugin m)).
Proof.
  destruct e as [file|now| |leaf| |i now]; simpl; intros Hstep.
  - inversion Hstep; subst m1; simpl.
    destruct (onVaultFileModified_queue app file (plugin m)) as (_ & _ & [Hq|[f [_ Hq]]]);
      [now left|right; right; now exists (path f)].
  - destruct (liveSyncTimeout (plugin m)); [|discriminate].
    pose proof (flushStart_queue now app (set_liveSyncTimeout None (plugin m)) (world m))
      as Hq.
    destruct (flushStart now app (set_liveSyncTimeout None (plugin m)) (world m))
      as [[p1 w1] t].
    inversion Hstep; subst m1; simpl in *. tauto.
  - inversion Hstep; subst m1. unfold startManual.
    destruct (isSyncing (plugin m)); now left.
  - inversion Hstep; subst m1. unfold startManual.
    destruct (isSyncing (plugin m)); now left.
  - inversion Hstep; subst m1. unfold startManual.
    destruct (isSyncing (plugin m)); now left.
  - destruct (nth_error (tasks m) i) as [[path rest targets|target rest upd|f]|];
      [| | |discriminate].
    + pose proof (flushAfterHash_queue now app path rest targets
                    (computeFileHash app path) (plugin m) (world m)) as Hq.
      destruct (flushAfterHash now app path rest targets (computeFileHash app path)
                  (plugin m) (world m)) as [[p1 w1] t].
      inversion Hstep; subst m1; simpl in *. now left.
    + destruct (publish (world m) (Some (targetPath target))) as [w0 settled].
      pose proof (flushAfterPublish_queue now app target rest upd settled (plugin m) w0)
        as Hq.
      destruct (flushAfterPublish now app target rest upd settled (plugin m) w0)
        as [[p1 w1] t].
      inversion Hstep; subst m1; simpl in *. now left.
    + destruct (publish (world m) f) as [w0 settled].
      pose proof (manualAfterPublish_queue f settled (plugin m) w0) as Hq.
      destruct (manualAfterPublish f settled (plugin m) w0) as [p1 w1].
      inversion Hstep; subst m1; simpl in *. now left.
Qed.

(** X10. Whatever the events, the queue never holds a path twice: a note
    saved again while it waits is still queued once. *)
Theorem queue_is_a_set (app : App) (events : list Event) (m m1 : Machine) :
  NoDup (liveSyncQueue (plugin m)) ->
  run app m events = Some m1 ->
  NoDup (liveSyncQueue (plugin m1)).
Proof.
  revert m. induction events as [|e r IH]; simpl; intros m Hnd Hrun.
  - inversion Hrun; now subst.
  - destruct (step app m e) as [m2|] eqn:Hstep; [|discriminate].
    apply (IH m2); [|exact Hrun].
    destruct (step_queue app m m2 e Hstep) as [Hq|[Hq|[x Hq]]]; rewrite Hq.
    + exact Hnd.
    + constructor.
    + now apply add_NoDup.
Qed.

End QueueInvariant.

(** ** Drain, publish and the next drain *)

Section DrainAndPublish.
Context `{Collaborators}.

Lemma targetStep_new (app : App) (hashes : Dict.t) (path : string)
    (targets : list Target) (t : Target) :
  In t (targetStep hashes path (computeFileHash app path) targets) ->
  In t targets
  \/ (targetPath t = path
      /\ computeFileHash app path = Some (targetHash t)
      /\ targetHash t <> ""
      /\ Dict.get path hashes <> Some (targetHash t)).
Proof.
  unfold targetStep.
  destruct (computeFileHash app path) as [h|] eqn:Hhash; [|now left].
  destruct (h =? "")%string eqn:Hempty; [now left|].
  destruct (sameHash (Dict.get path hashes) h) eqn:Hsame; [now left|].
  intros Hin. apply in_app_iff in Hin. destruct Hin as [Hin|[<-|[]]]; [now left|].
  right. simpl. split; [reflexivity|]. split; [reflexivity|]. split.
  - intros ->. discriminate.
  - intros Hget. rewrite Hget in Hsame. simpl in Hsame.
    now rewrite String.eqb_refl in Hsame.
Qed.

Lemma drainTargets_paths (app : App) (hashes : Dict.t) (queuedPaths : list string) :
  let targets := drainTargets app hashes queuedPaths in
  map targetPath targets = filter (publishable app hashes) queuedPaths
  /\ (forall t, In t targets ->
        computeFileHash app (targetPath t) = Some (targetHash t)
        /\ targetHash t <> ""
        /\ Dict.get (targetPath t) hashes <> Some (targetHash t)).
Proof.
  unfold drainTargets.
  apply (fold_left_invariant
           (fun targets path => targetStep hashes path (computeFileHash app path) targets)
           (fun done targets =>
              map targetPath targets = filter (publishable app hashes) done
              /\ (forall t, In t targets ->
                    computeFileHash app (targetPath t) = Some (targetHash t)
                    /\ targetHash t <> ""
                    /\ Dict.get (targetPath t) hashes <> Some (targetHash t)))
        ) with (done := []) (l := queuedPaths).
  - intros done path ts [Hmap Hall].
    destruct (targetStep_publishable app hashes path ts) as [Hmap1 _].
    split.
    + rewrite Hmap1, Hmap, filter_app. reflexivity.
    + intros t Hin. destruct (targetStep_new app hashes path ts t Hin)
        as [Hold|(Hp & Hh & Hne & Hget)]; [now apply Hall|].
      rewrite Hp. auto.
  - split; [reflexivity|]. intros t [].
Qed.

(** X11. The targets of a drain over a queue without repetition have
    distinct paths, all from the queue and in its order; each carries a
    non-empty fingerprint that is not the stored one. *)
Theorem drain_targets_distinct (app : App) (hashes : Dict.t) (queuedPaths : list string) :
  NoDup queuedPaths ->
  let targets := drainTargets app hashes queuedPaths in
  NoDup (map targetPath targets)
  /\ (forall t, In t targets ->
        In (targetPath t) queuedPaths
        /\ targetHash t <> ""
        /\ Dict.get (targetPath t) hashes <> Some (targetHash t)).
Proof.
  intros Hnd targets.
  destruct (drainTargets_paths app hashes queuedPaths) as [Hmap Hall].
  fold targets in Hmap, Hall. split.
  - rewrite Hmap. now apply NoDup_filter.
  - intros t Hin. destruct (Hall t Hin) as (_ & Hne & Hget).
    split; [|auto].
    apply (in_map targetPath) in Hin. rewrite Hmap in Hin.
    apply filter_In in Hin. tauto.
Qed.

Lemma publishTargets_invariant (targets : list Target) (p : Plugin) (w : World) :
  PublishInv (liveSyncHashes (settings p)) targets (publishTargets targets p w).
Proof.
  unfold publishTargets.
  apply (fold_left_invariant publishTarget (PublishInv (liveSyncHashes (settings p)))
           (PublishInv_step (liveSyncHashes (settings p))) targets []).
  unfold PublishInv; simpl. repeat split; auto. intros _ t ok [].
Qed.

(** X12. Publish, then drain again. A target whose publish succeeded is left
    out of any later drain as long as its content has the fingerprint
    that was published; for a target whose publish failed, a later drain
    decides as it would have before the loop. *)
Theorem published_target_is_suppressed (targets : list Target) (p : Plugin) (w : World)
    (later : App) (queuedPaths : list string) :
  NoDup (map targetPath targets) ->
  let l := publishTargets targets p w in
  let hashes0 := liveSyncHashes (settings p) in
  let hashes1 := liveSyncHashes (settings (loopPlugin l)) in
  (forall t, In (t, true) (attempts l) ->
     computeFileHash later (targetPath t) = Some (targetHash t) ->
     ~ In (targetPath t) (map targetPath (drainTargets later hashes1 queuedPaths)))
  /\ (forall t, In (t, false) (attempts l) ->
        publishable later hashes1 (targetPath t) = publishable later hashes0 (targetPath t)).
Proof.
  intros Hnd l hashes0 hashes1.
  destruct (publishTargets_invariant targets p w) as (_ & _ & Hdone).
  fold l hashes0 hashes1 in Hdone. split.
  - intros t Hin Hhash Hdrain.
    destruct (drainTargets_paths later hashes1 queuedPaths) as [Hmap _].
    rewrite Hmap in Hdrain. apply filter_In in Hdrain. destruct Hdrain as [_ Hpub].
    unfold publishable in Hpub. rewrite Hhash, (Hdone Hnd t true Hin) in Hpub.
    simpl in Hpub. rewrite String.eqb_refl in Hpub.
    rewrite andb_false_r in Hpub. discriminate.
  - intros t Hin. unfold publishable. now rewrite (Hdone Hnd t false Hin).
Qed.

End DrainAndPublish.

(** ** Pruning the hash table *)

Lemma get_not_key (k : string) (m : Dict.t) : ~ In k (Dict.keys m) -> Dict.get k m = None.
Proof.
  induction m as [|[k0 v] m IH]; simpl; intros Hn; [reflexivity|].
  destruct (k0 =? k)%string eqn:E.
  - apply String.eqb_eq in E. tauto.
  - apply IH. tauto.
Qed.

Lemma get_key (k : string) (m : Dict.t) : In k (Dict.keys m) -> Dict.get k m <> None.
Proof.
  induction m as [|[k0 v] m IH]; simpl; intros Hin; [contradiction|].
  destruct (k0 =? k)%string eqn:E; [discriminate|].
  apply IH. destruct Hin as [->|Hin]; [|exact Hin].
  now rewrite String.eqb_refl in E.
Qed.

Lemma settings_same_hashes (p : Plugin) :
  set_settings (set_liveSyncHashes (liveSyncHashes (settings p)) (settings p)) p = p.
Proof.
  destruct p as [s sync q timer bar client saves]. destruct s. reflexivity.
Qed.

Lemma prune_loop (app : App) (hashes0 : Dict.t) (paths : list string) :
  let acc := fold_left (pruneEntry app) paths (hashes0, false) in
  (forall k, getAbstractFileByPath app k <> None ->
     Dict.get k (fst acc) = Dict.get k hashes0)
  /\ (forall k, In k paths -> getAbstractFileByPath app k = None ->
        Dict.get k (fst acc) = None)
  /\ (forall k, Dict.get k hashes0 = None -> Dict.get k (fst acc) = None)
  /\ (snd acc = false -> fst acc = hashes0)
  /\ (snd acc = true -> exists k, In k paths /\ getAbstractFileByPath app k = None).
Proof.
  apply (fold_left_invariant (pruneEntry app)
           (fun done acc =>
              (forall k, getAbstractFileByPath app k <> None ->
                 Dict.get k (fst acc) = Dict.get k hashes0)
              /\ (forall k, In k done -> getAbstractFileByPath app k = None ->
                    Dict.get k (fst acc) = None)
              /\ (forall k, Dict.get k hashes0 = None -> Dict.get k (fst acc) = None)
              /\ (snd acc = false -> fst acc = hashes0)
              /\ (snd acc = true ->
                  exists k, In k done /\ getAbstractFileByPath app k = None))
        ) with (done := []) (l := paths).
  - intros done x [h mut] (Hkeep & Hgone & Hnone & Hsame & Hmut). simpl in *.
    unfold pruneEntry.
    destruct (getAbstractFileByPath app x) as [entry|] eqn:Hx; simpl.
    + split; [exact Hkeep|]. split; [|split; [exact Hnone|split; [exact Hsame|]]].
      * intros k Hin Hk. apply in_app_iff in Hin.
        destruct Hin as [Hin|[<-|[]]]; [now apply Hgone|congruence].
      * intros Ht. destruct (Hmut Ht) as [k [Hin Hk]].
        exists k. split; [apply in_app_iff; now left|exact Hk].
    + split; [|split; [|split; [|split; [discriminate|]]]].
      * intros k Hk. rewrite get_remove_other by congruence. now apply Hkeep.
      * intros k Hin Hk. apply in_app_iff in Hin.
        destruct Hin as [Hin|[<-|[]]]; [|apply get_remove_same].
        apply get_remove_none. now apply Hgone.
      * intros k Hk. apply get_remove_none. now apply Hnone.
      * intros _. exists x. split; [apply in_app_iff; right; now left|exact Hx].
  - simpl. repeat split; auto; try discriminate. intros k [].
Qed.

(** X13. [pruneMissingLiveSyncHashes] leaves no fingerprint for a path that
    is not in the vault and keeps the fingerprint of every path that is.
    When every path of the table is in the vault it changes nothing and
    does not save; a second run never changes anything. *)
Theorem prune_keeps_existing (app : App) (p : Plugin) :
  let hashes0 := liveSyncHashes (settings p) in
  let p1 := pruneMissingLiveSyncHashes app p in
  let hashes1 := liveSyncHashes (settings p1) in
  (forall k, getAbstractFileByPath app k = None -> Dict.get k hashes1 = None)
  /\ (forall k, getAbstractFileByPath app k <> None ->
        Dict.get k hashes1 = Dict.get k hashes0)
  /\ ((forall k, In k (Dict.keys hashes0) -> getAbstractFileByPath app k <> None) ->
      p1 = p)
  /\ pruneMissingLiveSyncHashes app p1 = p1.
Proof.
  intros hashes0 p1 hashes1.
  assert (Hunchanged : forall q,
            (forall k, In k (Dict.keys (liveSyncHashes (settings q))) ->
                       getAbstractFileByPath app k <> None) ->
            pruneMissingLiveSyncHashes app q = q).
  { intros q Hall. unfold pruneMissingLiveSyncHashes.
    destruct (prune_loop app (liveSyncHashes (settings q))
                (Dict.keys (liveSyncHashes (settings q)))) as (_ & _ & _ & Hsame & Hmut).
    destruct (fold_left (pruneEntry app) _ _) as [h mut]. simpl in *.
    destruct mut.
    - destruct (Hmut eq_refl) as [k [Hin Hk]]. now destruct (Hall k Hin).
    - rewrite (Hsame eq_refl). apply settings_same_hashes. }
  assert (Hstate : hashes1
                   = fst (fold_left (pruneEntry app) (Dict.keys hashes0) (hashes0, false))).
  { subst hashes1 p1. unfold pruneMissingLiveSyncHashes. fold hashes0.
    destruct (fold_left (pruneEntry app) _ _) as [h mut]. destruct mut; reflexivity. }
  destruct (prune_loop app hashes0 (Dict.keys hashes0)) as (Hkeep & Hgone & Hnone & _).
  rewrite <- Hstate in Hkeep, Hgone, Hnone.
  assert (Hmissing : forall k, getAbstractFileByPath app k = None ->
                               Dict.get k hashes1 = None).
  { intros k Hk. destruct (in_dec string_dec k (Dict.keys hashes0)) as [Hin|Hout].
    - now apply Hgone.
    - apply Hnone. now apply get_not_key. }
  split; [exact Hmissing|]. split; [exact Hkeep|]. split.
  - apply Hunchanged.
  - apply Hunchanged. intros k Hin Hk.
    apply (get_key k hashes1 Hin). now apply Hmissing.
Qed.

(** ** Interval tick, runtime state and settings tab *)

Lemma shouldUseIntervalSync_enabled (s : Settings) :
  shouldUseIntervalSync s = true -> liveSyncEnabled s = true.
Proof.
  unfold shouldUseIntervalSync. destruct (liveSyncEnabled s); [reflexivity|discriminate].
Qed.

Lemma prune_frame (app : App) (p : Plugin) :
  let p1 := pruneMissingLiveSyncHashes app p in
  liveSyncQueue p1 = liveSyncQueue p /\ liveSyncTimeout p1 = liveSyncTimeout p
  /\ isSyncing p1 = isSyncing p /\ statusBarEl p1 = statusBarEl p.
Proof.
  unfold pruneMissingLiveSyncHashes.
  destruct (fold_left (pruneEntry app) _ _) as [h mut]. destruct mut; simpl; auto.
Qed.

Section Tick.
Context `{Collaborators}.

(** X14. An interval tick does nothing when the strategy has no interval.
    Otherwise, with eligible notes in the vault: outside a publish cycle
    it empties the queue into a flush that hashes every path that was
    queued and every eligible note, each once; during a publish cycle it
    starts nothing, leaves those paths in the queue and arms the
    debounce timer, whatever the strategy. *)
Theorem interval_tick_enqueues (now : Z) (app : App) (p : Plugin) (w : World) :
  let eligible := collectEligibleLiveSyncPaths (settings p) app in
  let r := handleIntervalSyncTick now app p w in
  (shouldUseIntervalSync (settings p) = false -> r = (p, w, None))
  /\ (shouldUseIntervalSync (settings p) = true -> eligible <> [] -> isSyncing p = false ->
      exists first rest,
        snd r = Some (FlushHashing first rest [])
        /\ snd (fst r) = w
        /\ liveSyncQueue (fst (fst r)) = []
        /\ (forall x, In x (first :: rest) <-> In x (liveSyncQueue p) \/ In x eligible)
        /\ (NoDup (liveSyncQueue p) -> NoDup (first :: rest)))
  /\ (shouldUseIntervalSync (settings p) = true -> eligible <> [] -> isSyncing p = true ->
      snd r = None
      /\ (forall x, In x (liveSyncQueue (fst (fst r)))
                    <-> In x (liveSyncQueue p) \/ In x eligible)
      /\ liveSyncTimeout (fst (fst r))
         = Some (Z.max 0 (liveSyncDebounceSeconds (settings p)) * 1000)%Z).
Proof.
  intros eligible r. subst r.
  assert (Hdef : collectEligibleLiveSyncPaths (settings p) app = eligible) by reflexivity.
  clearbody eligible. unfold handleIntervalSyncTick. rewrite Hdef.
  split; [intros ->; reflexivity|].
  split.
  - intros Huse Hne Hidle. rewrite Huse. simpl negb. cbv iota.
    destruct eligible as [|e l]; [congruence|]. cbv iota.
    remember (enqueueAll (e :: l) (liveSyncQueue p)) as q1 eqn:Hq1.
    assert (Hin : In e q1) by (rewrite Hq1; apply enqueueAll_In; right; now left).
    destruct q1 as [|first rest]; [contradiction|].
    destruct (updateStatusBar_frame pending
                (Some (StrSet.size (liveSyncQueue (set_liveSyncQueue (first :: rest) p))))
                (set_liveSyncQueue (first :: rest) p)) as (Hs2 & Hsync2 & Hq2 & _).
    remember (updateStatusBar pending
                (Some (StrSet.size (liveSyncQueue (set_liveSyncQueue (first :: rest) p))))
                (set_liveSyncQueue (first :: rest) p)) as p2 eqn:Hp2.
    simpl in Hs2, Hsync2, Hq2.
    unfold flushStart. rewrite Hs2, (shouldUseIntervalSync_enabled _ Huse). simpl negb.
    cbv iota. rewrite Hq2, Hsync2.
    rewrite Hidle.
    exists first, rest.
    split; [reflexivity|]. split; [reflexivity|]. split; [reflexivity|]. split.
    + intros x. rewrite Hq1. apply enqueueAll_In.
    + intros Hnd. rewrite Hq1. now apply enqueueAll_NoDup.
  - intros Huse Hne Hbusy. rewrite Huse. simpl negb. cbv iota.
    destruct eligible as [|e l]; [congruence|]. cbv iota.
    remember (enqueueAll (e :: l) (liveSyncQueue p)) as q1 eqn:Hq1.
    assert (Hin : In e q1) by (rewrite Hq1; apply enqueueAll_In; right; now left).
    destruct q1 as [|first rest]; [contradiction|].
    destruct (updateStatusBar_frame pending
                (Some (StrSet.size (liveSyncQueue (set_liveSyncQueue (first :: rest) p))))
                (set_liveSyncQueue (first :: rest) p)) as (Hs2 & Hsync2 & Hq2 & _).
    remember (updateStatusBar pending
                (Some (StrSet.size (liveSyncQueue (set_liveSyncQueue (first :: rest) p))))
                (set_liveSyncQueue (first :: rest) p)) as p2 eqn:Hp2.
    simpl in Hs2, Hsync2, Hq2.
    unfold flushStart. rewrite Hs2, (shouldUseIntervalSync_enabled _ Huse). simpl negb.
    cbv iota. rewrite Hq2, Hsync2.
    rewrite Hbusy.
    cbv iota. simpl fst; simpl snd.
    destruct (prune_frame app (scheduleLiveSync None p2)) as (Hq & Ht & _).
    rewrite Hq, Ht. unfold scheduleLiveSync; simpl. rewrite Hq2, Hs2.
    split; [reflexivity|]. split; [|reflexivity].
    intros x. rewrite Hq1. apply enqueueAll_In.
Qed.

(** X15. The settings tab disables the trigger dropdown when live sync is
    off, the debounce slider exactly when saves are not watched, and the
    interval slider exactly when there is no interval. A disabled
    control belongs to a mechanism that does nothing: with the debounce
    slider disabled no modify event changes the plugin, with the
    interval slider disabled no tick does. *)
Theorem controls_follow_strategy (s : Settings) :
  let controls := refreshAutomationControls s in
  liveSyncModeDisabled controls = negb (liveSyncEnabled s)
  /\ liveSyncDelayDisabled controls = negb (shouldUseOnSaveSync s)
  /\ liveSyncIntervalDisabled controls = negb (shouldUseIntervalSync s)
  /\ (liveSyncDelayDisabled controls = true ->
      forall app file p, settings p = s -> onVaultFileModified app file p = p)
  /\ (liveSyncIntervalDisabled controls = true ->
      forall now app p w, settings p = s -> handleIntervalSyncTick now app p w = (p, w, None)).
Proof.
  intros controls.
  assert (Hdelay : liveSyncDelayDisabled controls = negb (shouldUseOnSaveSync s))
    by (unfold controls, refreshAutomationControls, shouldUseOnSaveSync; simpl;
        destruct (liveSyncEnabled s), (liveSyncStrategy s); reflexivity).
  assert (Hinterval : liveSyncIntervalDisabled controls = negb (shouldUseIntervalSync s))
    by (unfold controls, refreshAutomationControls, shouldUseIntervalSync; simpl;
        destruct (liveSyncEnabled s), (liveSyncStrategy s); reflexivity).
  split; [reflexivity|]. split; [exact Hdelay|]. split; [exact Hinterval|]. split.
  - rewrite Hdelay. intros Hoff app file p Hs. unfold onVaultFileModified.
    rewrite Hs. apply negb_true_iff in Hoff. rewrite Hoff.
    now rewrite orb_true_r.
  - rewrite Hinterval. intros Hoff now app p w Hs. unfold handleIntervalSyncTick.
    rewrite Hs, Hoff. reflexivity.
Qed.

End Tick.

(** X16. After [syncLiveSyncRuntimeState] the timers agree with the settings:
    the interval timer is armed exactly when the strategy has an
    interval, with a period of the configured minutes, at least one;
    when saves are not watched the queue is empty and no debounce timer
    is armed, and when they are, queue, timer and label are untouched;
    with live sync off the label is Idle. Settings and [isSyncing] are
    never touched. After [onunload] nothing is queued, no timer is armed
    and there is no status bar item. *)
Theorem runtime_state_follows_settings (rt : Runtime) :
  let s := settings (core rt) in
  let rt1 := syncLiveSyncRuntimeState rt in
  settings (core rt1) = s
  /\ isSyncing (core rt1) = isSyncing (core rt)
  /\ liveSyncIntervalId rt1
     = (if shouldUseIntervalSync s
        then Some (Z.max 1 (liveSyncIntervalMinutes s) * 60 * 1000)%Z
        else None)
  /\ (shouldUseOnSaveSync s = false ->
      liveSyncQueue (core rt1) = [] /\ liveSyncTimeout (core rt1) = None)
  /\ (shouldUseOnSaveSync s = true ->
      liveSyncQueue (core rt1) = liveSyncQueue (core rt)
      /\ liveSyncTimeout (core rt1) = liveSyncTimeout (core rt)
      /\ statusBarEl (core rt1) = statusBarEl (core rt))
  /\ (liveSyncEnabled s = false -> statusBarEl (core rt) <> None ->
      statusBarEl (core rt1) = Some (statusLabel idle None))
  /\ (liveSyncQueue (core (onunload rt)) = []
      /\ liveSyncTimeout (core (onunload rt)) = None
      /\ liveSyncIntervalId (onunload rt) = None
      /\ statusBarEl (core (onunload rt)) = None).
Proof.
  intros s rt1. subst rt1.
  destruct rt as [p iid]. simpl in s.
  destruct (clearLiveSyncQueue_frame p) as (Hq & Ht & Hsync & Hs).
  unfold syncLiveSyncRuntimeState, onunload, ensureIntervalSyncTask, clearIntervalSyncTask,
    shouldUseOnSaveSync, shouldUseIntervalSync. simpl core; simpl liveSyncIntervalId.
  fold s.
  destruct (liveSyncEnabled s) eqn:Hen; simpl negb; cbv iota.
  - destruct (liveSyncStrategy s) eqn:Hst; simpl negb; cbv iota;
      destruct iid as [i|]; simpl;
      unfold shouldUseIntervalSync; rewrite ?Hs; fold s; rewrite ?Hen, ?Hst; simpl;
      repeat split; auto; try discriminate; try congruence.
  - assert (Hidle : forall q, settings (updateStatusBar idle None q) = settings q
                              /\ isSyncing (updateStatusBar idle None q) = isSyncing q
                              /\ liveSyncQueue (updateStatusBar idle None q) = liveSyncQueue q
                              /\ liveSyncTimeout (updateStatusBar idle None q)
                                 = liveSyncTimeout q)
      by (intros q; apply updateStatusBar_frame).
    destruct (Hidle (clearLiveSyncQueue p)) as (Hs1 & Hsync1 & Hq1 & Ht1).
    assert (Hbar : statusBarEl p <> None ->
                   statusBarEl (updateStatusBar idle None (clearLiveSyncQueue p))
                   = Some (statusLabel idle None)).
    { intros Hb. apply updateStatusBar_label.
      unfold clearLiveSyncQueue.
      destruct (liveSyncTimeout (set_liveSyncQueue [] p)); simpl;
        destruct (isSyncing p); simpl; auto;
        unfold updateStatusBar; simpl; destruct (statusBarEl p); simpl; congruence. }
    destruct iid as [i|]; simpl;
      rewrite ?Hs1, ?Hsync1, ?Hq1, ?Ht1, ?Hs, ?Hsync, ?Hq, ?Ht;
      repeat split; auto; try discriminate; try congruence.
Qed.

(** ** The event loop without interruption *)

Section Uninterrupted.
Context `{Collaborators}.

Lemma manual_step (app : App) (m m1 : Machine) (e : Event) :
  notDebounceTimer e = true ->
  (tasks m = []
   \/ exists f, tasks m = [ManualPublishing f] /\ isSyncing (plugin m) = true) ->
  step app m e = Some m1 ->
  tasks m1 = []
  \/ exists f, tasks m1 = [ManualPublishing f] /\ isSyncing (plugin m1) = true.
Proof.
  intros Hev Hinv Hstep.
  assert (Hmanual : forall f,
            tasks (startManual f m) = []
            \/ exists f', tasks (startManual f m) = [ManualPublishing f']
                          /\ isSyncing (plugin (startManual f m)) = true).
  { intros f. unfold startManual.
    destruct (isSyncing (plugin m)) eqn:Hs.
    - destruct Hinv as [Hnone|[f' [Htask _]]]; [now left|].
      right. exists f'. split; [exact Htask|exact Hs].
    - destruct Hinv as [Hnone|[f' [_ Hbusy]]]; [|congruence].
      right. exists f. simpl. now rewrite Hnone. }
  destruct e as [file|now| |leaf| |i now]; simpl in *; try discriminate.
  - inversion Hstep; subst m1; simpl.
    destruct (onVaultFileModified_queue app file (plugin m)) as (Hsync & _).
    destruct Hinv as [Hnone|[f [Htask Hbusy]]]; [now left|].
    right. exists f. split; [exact Htask|congruence].
  - inversion Hstep; subst m1. apply Hmanual.
  - inversion Hstep; subst m1. apply Hmanual.
  - inversion Hstep; subst m1. apply Hmanual.
  - destruct Hinv as [Hnone|[f [Htask Hbusy]]].
    + rewrite Hnone in Hstep. destruct i; discriminate.
    + rewrite Htask in Hstep. destruct i as [|j]; simpl in Hstep;
        [|destruct j; discriminate].
      destruct (publish (world m) f) as [w0 settled].
      destruct (manualAfterPublish f settled (plugin m) w0) as [p1 w1].
      inversion Hstep; subst m1. now left.
Qed.

(** X17. The ribbon and the publish commands are single-flight among
    themselves: as long as the debounce timer does not fire, whatever
    the clicks, commands, saves and completions, at most one call is
    inside the publisher, and [isSyncing] is set while it is. *)
Theorem manual_publishes_single_flight (app : App) (events : list Event) (m m1 : Machine) :
  tasks m = [] ->
  forallb notDebounceTimer events = true ->
  run app m events = Some m1 ->
  publishInFlight m1 <= 1
  /\ (publishInFlight m1 = 1 -> isSyncing (plugin m1) = true).
Proof.
  intros Hnone Hevents Hrun.
  assert (Hinv : tasks m1 = []
                 \/ exists f, tasks m1 = [ManualPublishing f]
                              /\ isSyncing (plugin m1) = true).
  { assert (Hstart : tasks m = []
                     \/ exists f, tasks m = [ManualPublishing f]
                                  /\ isSyncing (plugin m) = true) by now left.
    clear Hnone. revert m Hstart Hrun.
    induction events as [|e r IH]; simpl in *; intros m Hstart Hrun.
    - inversion Hrun; now subst.
    - apply andb_true_iff in Hevents. destruct Hevents as [He Hr].
      destruct (step app m e) as [m2|] eqn:Hstep; [|discriminate].
      apply (IH Hr m2); [|exact Hrun].
      now apply (manual_step app m m2 e). }
  unfold publishInFlight.
  destruct Hinv as [->|[f [-> Hbusy]]]; simpl; split; auto; discriminate.
Qed.

Lemma hashing_run (now : Z) (app : App) (rest : list string) :
  forall (path : string) (targets0 : list Target) (p : Plugin) (w : World),
  run app {| plugin := p; world := w; tasks := [FlushHashing path rest targets0] |}
    (repeat (Settle 0 now) (S (List.length rest)))
  = match fold_left
            (fun ts x =>
               targetStep (liveSyncHashes (settings p)) x (computeFileHash app x) ts)
            (path :: rest) targets0 with
    | t :: ts =>
        Some {| plugin := updateStatusBar syncing (Some (S (List.length ts)))
                            (set_isSyncing true p);
                world := w;
                tasks := [FlushPublishing t ts false] |}
    | [] =>
        let '(p1, w1, _) := maybeRunOrphanCleanup false now app p w in
        Some {| plugin := updateStatusBar idle None p1; world := w1; tasks := [] |}
    end.
Proof.
  induction rest as [|next rest1 IH]; intros path targets0 p w.
  - simpl.
    destruct (targetStep (liveSyncHashes (settings p)) path (computeFileHash app path)
                targets0) as [|t ts]; [|reflexivity].
    destruct (maybeRunOrphanCleanup false now app p w) as [[p1 w1] ran]. reflexivity.
  - change (repeat (Settle 0 now) (S (List.length (next :: rest1))))
      with (Settle 0 now :: repeat (Settle 0 now) (S (List.length rest1))).
    cbn [run step nth_error tasks plugin world flushAfterHash continue].
    rewrite IH. reflexivity.
Qed.

(** X18. A flush that is left alone hashes its way to the targets of
    [drainTargets]: settling its hashes one after the other ends, when
    there are targets, with [isSyncing] set, the label Syncing(n) and
    the first publish under way; and when there are none, with no call
    left. *)
Theorem hashing_steps_compose (now : Z) (app : App) (path : string) (rest : list string)
    (p : Plugin) (w : World) :
  let targets := drainTargets app (liveSyncHashes (settings p)) (path :: rest) in
  let m := {| plugin := p; world := w; tasks := [FlushHashing path rest []] |} in
  let settled := run app m (repeat (Settle 0 now) (S (List.length rest))) in
  (forall t ts, targets = t :: ts ->
     settled
     = Some {| plugin := updateStatusBar syncing (Some (List.length targets))
                           (set_isSyncing true p);
               world := w;
               tasks := [FlushPublishing t ts false] |})
  /\ (targets = [] ->
      exists m1, settled = Some m1 /\ tasks m1 = [] /\ isSyncing (plugin m1) = isSyncing p).
Proof.
  intros targets m settled. subst settled m. rewrite hashing_run.
  change (fold_left
            (fun ts x =>
               targetStep (liveSyncHashes (settings p)) x (computeFileHash app x) ts)
            (path :: rest) []) with targets.
  split.
  - intros t ts ->. reflexivity.
  - intros ->.
    pose proof (maybeRunOrphanCleanup_frame false now app p w) as Hfr.
    destruct (maybeRunOrphanCleanup false now app p w) as [[p1 w1] ran].
    simpl in Hfr. destruct Hfr as (_ & Hsync & _).
    eexists. split; [reflexivity|]. split; [reflexivity|]. simpl.
    destruct (updateStatusBar_frame idle None p1) as (_ & Hs & _). congruence.
Qed.

Lemma publishing_step (now : Z) (app : App) (t : Target) (rest : list Target) (upd : bool)
    (att : list (Target * bool)) (p : Plugin) (w : World) :
  step app {| plugin := p; world := w; tasks := [FlushPublishing t rest upd] |}
    (Settle 0 now)
  = let l1 := publishTarget
                {| loopPlugin := p; loopWorld := w; hashesUpdated := upd; attempts := att |}
                t in
    match rest with
    | next :: rest1 =>
        Some {| plugin := loopPlugin l1; world := loopWorld l1;
                tasks := [FlushPublishing next rest1 (hashesUpdated l1)] |}
    | [] =>
        let '(p3, w3) :=
          flushFinish now app (hashesUpdated l1) (loopPlugin l1) (loopWorld l1) in
        Some {| plugin := p3; world := w3; tasks := [] |}
    end.
Proof.
  cbn [step nth_error tasks plugin world].
  unfold publishTarget, doPublish, flushAfterPublish.
  cbn [loopPlugin loopWorld hashesUpdated attempts].
  destruct (publish w (Some (targetPath t))) as [w0 [error|adrFiles]].
  - destruct (afterPublish t (inl error) p upd) as [p2 upd2].
    destruct rest as [|next rest1]; simpl; [|reflexivity].
    destruct (flushFinish now app upd2 p2 w0) as [p3 w3]. reflexivity.
  - destruct (doPublishResume (Some (targetPath t)) (Some true) adrFiles p w0)
      as [[p' w'] returnVal].
    destruct (afterPublish t (inr returnVal) p' upd) as [p2 upd2].
    destruct rest as [|next rest1]; simpl; [|reflexivity].
    destruct (flushFinish now app upd2 p2 w') as [p3 w3]. reflexivity.
Qed.

Lemma publishing_run (now : Z) (app : App) (rest : list Target) :
  forall (t : Target) (upd : bool) (att : list (Target * bool)) (p : Plugin) (w : World),
  run app {| plugin := p; world := w; tasks := [FlushPublishing t rest upd] |}
    (repeat (Settle 0 now) (S (List.length rest)))
  = let l := fold_left publishTarget (t :: rest)
               {| loopPlugin := p; loopWorld := w; hashesUpdated := upd; attempts := att |} in
    let '(p3, w3) := flushFinish now app (hashesUpdated l) (loopPlugin l) (loopWorld l) in
    Some {| plugin := p3; world := w3; tasks := [] |}.
Proof.
  induction rest as [|next rest1 IH]; intros t upd att p w.
  - change (repeat (Settle 0 now) (S (List.length (@nil Target)))) with [Settle 0 now].
    cbn [run]. rewrite (publishing_step now app t [] upd att p w).
    cbn [fold_left]. cbv zeta.
    destruct (flushFinish now app _ _ _) as [p3 w3]. reflexivity.
  - change (repeat (Settle 0 now) (S (List.length (next :: rest1))))
      with (Settle 0 now :: repeat (Settle 0 now) (S (List.length rest1))).
    cbn [run]. rewrite (publishing_step now app t (next :: rest1) upd att p w).
    cbv zeta.
    set (l1 := publishTarget
                 {| loopPlugin := p; loopWorld := w; hashesUpdated := upd; attempts := att |}
                 t).
    cbv beta iota.
    rewrite (IH next (hashesUpdated l1) (attempts l1) (loopPlugin l1) (loopWorld l1)).
    cbn [fold_left]. fold l1. clearbody l1. destruct l1; reflexivity.
Qed.

(** X19. A publish loop that is left alone is the loop of [publishTargets]
    followed by the end of the flush: settling its publishes one after
    the other leaves no call, the plugin and world of that loop after
    [flushFinish], [isSyncing] reset and the queue as it was. *)
Theorem publishing_steps_compose (now : Z) (app : App) (t : Target) (rest : list Target)
    (p : Plugin) (w : World) :
  let m := {| plugin := p; world := w; tasks := [FlushPublishing t rest false] |} in
  let l := publishTargets (t :: rest) p w in
  let finished := flushFinish now app (hashesUpdated l) (loopPlugin l) (loopWorld l) in
  run app m (repeat (Settle 0 now) (S (List.length rest)))
  = Some {| plugin := fst finished; world := snd finished; tasks := [] |}
  /\ isSyncing (fst finished) = false
  /\ liveSyncQueue (fst finished) = liveSyncQueue p.
Proof.
  intros m l finished. subst m.
  rewrite (publishing_run now app rest t false [] p w). cbv zeta.
  change (fold_left publishTarget (t :: rest)
            {| loopPlugin := p; loopWorld := w; hashesUpdated := false; attempts := [] |})
    with l.
  fold finished.
  destruct (flushFinish_frame now app (hashesUpdated l) (loopPlugin l) (loopWorld l))
    as (Hq & Hsync & _).
  fold finished in Hq, Hsync.
  split; [destruct finished; reflexivity|]. split; [exact Hsync|].
  rewrite Hq. subst l. clear.
  unfold publishTargets.
  assert (Hloop : forall ts l0,
            liveSyncQueue (loopPlugin (fold_left publishTarget ts l0))
            = liveSyncQueue (loopPlugin l0)).
  { induction ts as [|x ts IH]; intros l0; [reflexivity|].
    cbn [fold_left]. rewrite IH. unfold publishTarget.
    unfold doPublish.
    destruct (publish (loopWorld l0) (Some (targetPath x))) as [w1 [error|adrFiles]].
    - destruct (afterPublish_frame x (inl error) (loopPlugin l0) (hashesUpdated l0))
        as (Hq & _).
      destruct (afterPublish x (inl error) (loopPlugin l0) (hashesUpdated l0)).
      simpl in *. exact Hq.
    - destruct (doPublishResume_frame (Some (targetPath x)) (Some true) adrFiles
                  (loopPlugin l0) w1) as (_ & _ & Hq1 & _).
      destruct (doPublishResume (Some (targetPath x)) (Some true) adrFiles
                  (loopPlugin l0) w1) as [[p2 w2] returnVal].
      destruct (afterPublish_frame x (inr returnVal) p2 (hashesUpdated l0)) as (Hq & _).
      destruct (afterPublish x (inr returnVal) p2 (hashesUpdated l0)).
      simpl in *. congruence. }
  apply Hloop.
Qed.

End Uninterrupted.

(** ** The further properties on the small vault *)

(** The folder [Docs/] with two more separators typed after it. *)
Lemma eligibility_ignores_trailing_separators_witness :
  Js.trim (folderToPublish Demo.config) = folderToPublish Demo.config
  /\ isFileEligibleForLiveSync (H := Demo.remote)
       (set_folderToPublish "Docs///" Demo.config) Demo.app Demo.a_md
     = isFileEligibleForLiveSync (H := Demo.remote) Demo.config Demo.app Demo.a_md.
Proof.
  split; [reflexivity|].
  exact (eligibility_ignores_trailing_separators (H := Demo.remote) Demo.config 2
           Demo.app Demo.a_md eq_refl).
Defined.

Lemma sample_results_NoDup : NoDup (map absoluteFilePath Sample.results).
Proof.
  simpl. repeat constructor; simpl; intuition discriminate.
Defined.

(** [Docs/a.md] comes back with page 11, [Docs/b.md] without a page. *)
Lemma updateBacklinkState_records_witness :
  let st1 := backlinkPublishState
               (settings (updateBacklinkState Sample.results Sample.published)) in
  Dict.get "Docs/a.md" st1 = Some "11"
  /\ Dict.get "Docs/b.md" st1 = None
  /\ Dict.get "Old/z.md" st1 = Some "9".
Proof.
  destruct (updateBacklinkState_records Sample.results Sample.published
              sample_results_NoDup) as (Hdone & Hframe & _).
  split; [|split].
  - exact (Hdone _ (or_introl eq_refl)).
  - exact (Hdone _ (or_intror (or_introl eq_refl))).
  - apply Hframe. simpl. intuition discriminate.
Defined.

(** The command on [Docs/a.md]: the cleanup is skipped. *)
Lemma doPublish_records_page_ids_witness :
  let r := doPublishResume (H := Demo.remote) (Some "Docs/a.md") None Sample.results
             Sample.published tt in
  NoDup (map absoluteFilePath Sample.results)
  /\ Dict.get "Docs/a.md" (backlinkPublishState (settings (fst (fst r)))) = Some "11"
  /\ Dict.get "Old/z.md" (backlinkPublishState (settings (fst (fst r)))) = Some "9".
Proof.
  split; [exact sample_results_NoDup|].
  destruct (doPublish_records_page_ids (H := Demo.remote) (Some "Docs/a.md") None
              Sample.results Sample.published tt sample_results_NoDup) as (Hids & Hskip).
  split.
  - apply (Hids _ (or_introl eq_refl)). discriminate.
  - destruct (Hskip eq_refl) as (_ & Hframe).
    apply Hframe. simpl. intuition discriminate.
Defined.

(** A forced cleanup over the stale pages leaves [Docs/a.md] mapped. *)
Lemma cleanup_keeps_eligible_notes_witness :
  In Demo.a_md (getMarkdownFiles Demo.app)
  /\ Dict.get "Docs/a.md"
       (backlinkPublishState
          (settings (fst (fst (maybeRunOrphanCleanup (H := Demo.remote) true 1000 Demo.app
                                 Demo.stalePages tt)))))
     = Some "7".
Proof.
  assert (Hin : In Demo.a_md (getMarkdownFiles Demo.app)) by (left; reflexivity).
  split; [exact Hin|].
  exact (cleanup_keeps_eligible_notes (H := Demo.remote) true 1000 Demo.app Demo.stalePages
           tt Demo.a_md Hin eq_refl).
Defined.

(** [Docs/a.md] saved three times and [Docs/b.md] once. *)
Lemma queue_is_a_set_witness :
  match run Demo.app Demo.machine Sample.repeatedSaves with
  | Some m1 => NoDup (liveSyncQueue (plugin m1))
  | None => False
  end.
Proof.
  exact (queue_is_a_set (H := Demo.remote) Demo.app Sample.repeatedSaves Demo.machine _
           (NoDup_nil string) eq_refl).
Defined.

Lemma three_paths_NoDup : NoDup ["Docs/a.md"; "Other/c.md"; "Docs/b.md"].
Proof.
  repeat constructor; simpl; intuition discriminate.
Defined.

Lemma drain_targets_distinct_witness :
  NoDup ["Docs/a.md"; "Other/c.md"; "Docs/b.md"]
  /\ NoDup (map targetPath
              (drainTargets (H := Demo.remote) Demo.app []
                 ["Docs/a.md"; "Other/c.md"; "Docs/b.md"])).
Proof.
  split; [exact three_paths_NoDup|].
  destruct (drain_targets_distinct (H := Demo.remote) Demo.app []
              ["Docs/a.md"; "Other/c.md"; "Docs/b.md"] three_paths_NoDup) as [Hnd _].
  exact Hnd.
Defined.

Lemma two_targets_NoDup : NoDup (map targetPath Sample.twoTargets).
Proof.
  simpl. repeat constructor; simpl; intuition discriminate.
Defined.

(** Both notes are published, then queued again unchanged. *)
Lemma published_target_is_suppressed_witness :
  let l := publishTargets (H := Demo.remote) Sample.twoTargets Demo.started tt in
  In ({| targetPath := "Docs/a.md"; targetHash := "md5:alpha" |}, true) (attempts l)
  /\ ~ In "Docs/a.md"
       (map targetPath
          (drainTargets (H := Demo.remote) Demo.app
             (liveSyncHashes (settings (loopPlugin l))) ["Docs/a.md"; "Docs/b.md"])).
Proof.
  intros l.
  assert (Hin : In ({| targetPath := "Docs/a.md"; targetHash := "md5:alpha" |}, true)
                  (attempts l)) by (left; reflexivity).
  split; [exact Hin|].
  destruct (published_target_is_suppressed (H := Demo.remote) Sample.twoTargets
              Demo.started tt Demo.app ["Docs/a.md"; "Docs/b.md"] two_targets_NoDup)
    as (Hdone & _).
  exact (Hdone _ Hin eq_refl).
Defined.

(** Clicks and commands while the ribbon's publish is running. *)
Lemma manual_publishes_single_flight_witness :
  match run Demo.app Demo.machine Sample.manualTrace with
  | Some m1 =>
      publishInFlight m1 <= 1 /\ (publishInFlight m1 = 1 -> isSyncing (plugin m1) = true)
  | None => False
  end.
Proof.
  exact (manual_publishes_single_flight (H := Demo.remote) Demo.app Sample.manualTrace
           Demo.machine _ eq_refl eq_refl eq_refl).
Defined.

(** * The sweep with a rejecting adaptor *)

Section FullSweep.
Context `{Collaborators}.
Variable clearRejection : World -> string -> option Thrown.

(** Answers to one list of calls after another. *)
Lemma answered_app (w w1 w2 : World) (cs cs' : list Full.RemoteCall) :
  Full.answered clearRejection w cs w1 ->
  Full.answered clearRejection w1 cs' w2 ->
  Full.answered clearRejection w (cs ++ cs') w2.
Proof.
  revert w. induction cs as [|[path id out|path out] cs IH]; simpl; intros w.
  - now intros ->.
  - intros [Hout Hrest] Hcs'. split; [exact Hout|]. now apply IH.
  - intros [Hout Hrest] Hcs'. split; [exact Hout|]. now apply IH.
Qed.

Lemma deletesOf_app (cs cs' : list Full.RemoteCall) :
  Full.deletesOf (cs ++ cs') = Full.deletesOf cs ++ Full.deletesOf cs'.
Proof. unfold Full.deletesOf. apply flat_map_app. Qed.

Lemma deletesOf_In (cs : list Full.RemoteCall) (path id : string) (out : option Thrown) :
  In (path, id, out) (Full.deletesOf cs) <-> In (Full.DeleteCall path id out) cs.
Proof.
  unfold Full.deletesOf. rewrite in_flat_map. split.
  - intros [[p i o|p o] [Hin Hx]]; simpl in Hx; [|contradiction].
    destruct Hx as [Hx|[]]. now inversion Hx; subst.
  - intros Hin. exists (Full.DeleteCall path id out). split; [exact Hin|now left].
Qed.

Lemma Inv_start (st0 : Dict.t) (w0 : World) :
  Full.Inv clearRejection st0 w0 [] (Full.start st0 w0).
Proof.
  unfold Full.Inv; simpl. repeat split; try tauto; try contradiction.
  all: intros; try contradiction.
Qed.

(** The paths through the loop body: no page id; delete rejected,
    not-found or not, the clear in the [catch] rejected or not; delete
    resolved, the clear in the [try] rejected or not, that rejection
    not-found or not, the second clear rejected or not. *)
Ltac branches a k v :=
  destruct (v =? "") eqn:Hv;
  [| destruct (deleteContent (Full.world a) v) as [w1 [e|]] eqn:Hdel;
     unfold Full.settleDelete, Full.catch, Full.dropAndClear; simpl;
     [ destruct (isConfluenceNotFound e) eqn:Hnf;
       [destruct (clearRejection w1 k) as [e1|] eqn:Hc1|]
     | destruct (clearRejection w1 k) as [e1|] eqn:Hc1;
       [ destruct (isConfluenceNotFound e1) eqn:Hnf1;
         [destruct (clearRejection (clearConfluencePageId w1 k) k) as [e2|] eqn:Hc2|]
       |] ] ]; simpl.

Ltac split_in :=
  repeat match goal with
  | Hx : _ \/ _ |- _ => destruct Hx as [Hx|Hx]
  | Hx : False |- _ => destruct Hx
  | Hx : Full.DeleteCall _ _ _ = Full.DeleteCall _ _ _ |- _ => inversion Hx; subst; clear Hx
  | Hx : Full.ClearCall _ _ = Full.ClearCall _ _ |- _ => inversion Hx; subst; clear Hx
  | Hx : Full.ClearCall _ _ = Full.DeleteCall _ _ _ |- _ => discriminate Hx
  | Hx : Full.DeleteCall _ _ _ = Full.ClearCall _ _ |- _ => discriminate Hx
  | Hx : (_, _) = (_, _) |- _ => inversion Hx; subst; clear Hx
  end.

Ltac gone :=
  first [ apply get_remove_same | solve [eauto] | apply get_remove_none; gone ].

Ltac isin := rewrite <- ?app_assoc, ?in_app_iff; simpl; eauto 8.

Ltac lists :=
  intros; simpl in *; rewrite <- ?app_assoc in *; rewrite ?in_app_iff in *; simpl in *.

Lemma Inv_step (st0 : Dict.t) (w0 : World) (done : list (string * string))
    (x : string * string) (a : Full.Pass) :
  Full.Inv clearRejection st0 w0 done a ->
  Full.Inv clearRejection st0 w0 (done ++ [x]) (Full.sweepEntry clearRejection a x).
Proof.
  intros (Hans & Hfr & Hmut & Hres & Hds & Hfs & Hnormal).
  destruct x as [k v].
  assert (Hfr' : forall k', ~ In k' (map fst (done ++ [(k, v)])) ->
                            k' <> k /\ Dict.get k' (Full.state a) = Dict.get k' st0).
  { intros k' Hnot. rewrite map_app, in_app_iff in Hnot. simpl in Hnot.
    split; [intros ->; tauto|]. apply Hfr. tauto. }
  unfold Full.sweepEntry.
  destruct (Full.escaped a) as [thrown|] eqn:Hesc.
  { unfold Full.Inv. rewrite Hesc. repeat split; auto; try discriminate.
    all: try (now apply Hmut).
    all: try (intros k' Hnot; now apply Hfr'). }
  specialize (Hnormal eq_refl). destruct Hnormal as (Hc & Hnf' & Hrep & Hcl).
  unfold Full.Inv.
  split; [|split; [|split; [|split; [|split; [|split]]]]].
  - (* answered *)
    branches a k v; try exact Hans.
    all: rewrite <- ?app_assoc; simpl;
      (eapply answered_app; [exact Hans|]); simpl; rewrite Hdel; simpl; auto.
  - (* frame *)
    intros k' Hnot. destruct (Hfr' k' Hnot) as [Hne Hget].
    branches a k v; rewrite ?get_remove_other by exact Hne; exact Hget.
  - (* mutated *)
    branches a k v; try discriminate. exact Hmut.
  - (* resolved deletes *)
    branches a k v; lists; split_in; gone.
  - (* deleted paths come from deletes *)
    branches a k v; lists; split_in; subst.
    all: try (destruct (Hds _ H0) as (id' & out' & Hin' & Ht'); exists id', out';
              split; [isin|exact Ht']).
    all: try (exists v; eexists; split; [isin|simpl; auto]).
  - (* failed paths come from rejections *)
    branches a k v; lists; split_in; subst.
    all: try (destruct (Hfs _ _ H0) as [(id' & e' & Hin' & Hnf'')|(e' & Hin')];
              [left; exists id', e'; split; [isin|exact Hnf'']|right; exists e'; isin]).
    + left. exists v, e. split; [isin|exact Hnf].
    + right. exists e1. isin.
  - (* a pass that was not left *)
    branches a k v; try discriminate; intros _.
    all: split; [|split; [|split]].
    all: try (rewrite <- ?app_assoc, ?deletesOf_app, ?map_app, filter_app, Hc; simpl;
              unfold hasPageId; simpl; rewrite Hv; simpl; rewrite ?app_nil_r; reflexivity).
    all: lists; rewrite ?map_app, ?in_app_iff; simpl; split_in; subst.
    all: try (destruct (Hnf' _ _ _ H0 H1) as (Hg' & Hd' & Hcc'); split; [gone|split; isin]).
    all: try (destruct (Hrep _ _ _ H0) as [Hd'|Hf']; tauto).
    all: try (destruct (Hcl _ _ H0) as [id' Hin']; exists id'; isin).
    all: try (exists v; isin).
    all: try tauto.
    + split; [apply get_remove_same|split; auto 6].
    + congruence.
Qed.

Lemma Inv_loop (st0 : Dict.t) (w0 : World) (stale : list (string * string)) :
  Full.Inv clearRejection st0 w0 stale
    (fold_left (Full.sweepEntry clearRejection) stale (Full.start st0 w0)).
Proof.
  apply (fold_left_invariant (Full.sweepEntry clearRejection)
           (Full.Inv clearRejection st0 w0)) with (done := []) (l := stale).
  - intros done x a. apply Inv_step.
  - apply Inv_start.
Qed.


Lemma deletes_NoDup (st0 : Dict.t) (eligible : StrSet.t) (cs : list Full.RemoteCall) :
  NoDup (Dict.keys st0) ->
  map fst (Full.deletesOf cs) = filter hasPageId (staleEntriesOf st0 eligible) ->
  NoDup (map callPath (Full.deletesOf cs)).
Proof.
  intros Hnd Hc. unfold callPath. rewrite <- (map_map fst fst), Hc.
  apply NoDup_map_filter. unfold staleEntriesOf. now apply NoDup_map_filter.
Qed.

Lemma one_delete_per_path (cs : list Full.RemoteCall) (path id id' : string)
    (out out' : option Thrown) :
  NoDup (map callPath (Full.deletesOf cs)) ->
  In (Full.DeleteCall path id out) cs ->
  In (Full.DeleteCall path id' out') cs ->
  id = id' /\ out = out'.
Proof.
  intros Hnd Hin Hin'. apply deletesOf_In in Hin, Hin'.
  assert (Heq : (path, id, out) = (path, id', out'))
    by (apply (NoDup_map_injective callPath _ _ _ Hnd Hin Hin'); reflexivity).
  now inversion Heq.
Qed.


(** X8. The sweep returns at once, with empty statistics, no remote call
    and no save, when nothing is stale or the client is missing.
    Otherwise it saves at most once, at the end, and not at all when a
    rejection of [clearConfluencePageId] in the [catch] block left it;
    when it returns without having saved, the backlink state is what it
    was and nothing counts as deleted. Without a remote call the world
    is untouched. On return every delete call is reported, among the
    deleted paths or among the failed ones; a path is reported among
    both only when a call of [clearConfluencePageId] for it was
    rejected. *)
Theorem sweep_saves_in_one_batch (eligible : StrSet.t) (p : Plugin) (w : World) :
  let st0 := backlinkPublishState (settings p) in
  let r := Full.removeBacklinkOrphans clearRejection eligible p w in
  let st1 := backlinkPublishState (settings (fst r)) in
  (staleEntriesOf st0 eligible = [] \/ confluenceClient p = false ->
   r = (p, Full.start st0 w))
  /\ saveCount (fst r) <= S (saveCount p)
  /\ (Full.escaped (snd r) <> None -> saveCount (fst r) = saveCount p)
  /\ (Full.escaped (snd r) = None -> saveCount (fst r) = saveCount p ->
      st1 = st0 /\ Full.deletedPaths (snd r) = [])
  /\ (Full.calls (snd r) = [] -> Full.world (snd r) = w)
  /\ (Full.escaped (snd r) = None ->
      forall path id out,
        In (Full.DeleteCall path id out) (Full.calls (snd r)) ->
        In path (Full.deletedPaths (snd r))
        \/ In path (map fst (Full.failedDeletions (snd r))))
  /\ (Full.escaped (snd r) = None -> NoDup (Dict.keys st0) ->
      forall path,
        In path (Full.deletedPaths (snd r)) ->
        In path (map fst (Full.failedDeletions (snd r))) ->
        exists rejection, In (Full.ClearCall path (Some rejection)) (Full.calls (snd r))).
Proof.
  intros st0 r st1. subst st1 r. unfold Full.removeBacklinkOrphans. fold st0.
  pose proof (Inv_loop st0 w (staleEntriesOf st0 eligible)) as Hinv.
  destruct (staleEntriesOf st0 eligible) as [|e l] eqn:Hstale.
  - simpl. repeat split; auto; try contradiction.
  - destruct (confluenceClient p) eqn:Hclient; cbn [negb].
    2:{ simpl. repeat split; auto; try contradiction. }
    set (a := fold_left (Full.sweepEntry clearRejection) (e :: l) (Full.start st0 w)) in *.
    destruct Hinv as (Hans & _ & Hmut & _ & Hds & Hfs & Hnormal).
    assert (Hreport : Full.escaped a = None ->
              (forall path id out, In (Full.DeleteCall path id out) (Full.calls a) ->
                 In path (Full.deletedPaths a) \/ In path (map fst (Full.failedDeletions a)))
              /\ (NoDup (Dict.keys st0) -> forall path,
                  In path (Full.deletedPaths a) ->
                  In path (map fst (Full.failedDeletions a)) ->
                  exists rejection, In (Full.ClearCall path (Some rejection)) (Full.calls a))).
    { intros Hesc. destruct (Hnormal Hesc) as (Hc & _ & Hrep & _).
      split; [exact Hrep|].
      intros Hnd path Hdel Hfailed.
      rewrite <- Hstale in Hc.
      pose proof (deletes_NoDup _ eligible _ Hnd Hc) as Hone.
      destruct (Hds path Hdel) as (id & out & Hin & Htreated).
      apply in_map_iff in Hfailed.
      destruct Hfailed as [[k reason'] [Hk Hfailed]]. simpl in Hk; subst k.
      destruct (Hfs path reason' Hfailed) as [(id' & error' & Hin' & Hnf')|Hclear];
        [|exact Hclear].
      destruct (one_delete_per_path _ _ _ _ _ _ Hone Hin Hin') as [_ Heq].
      subst out. simpl in Htreated. congruence. }
    assert (Hworld : Full.calls a = [] -> Full.world a = w).
    { intros Hno. rewrite Hno in Hans. exact Hans. }
    split; [intros [Hno|Hno]; discriminate|].
    destruct (Full.escaped a) as [thrown|] eqn:Hesc; cbn [fst snd]; rewrite ?Hesc.
    + simpl saveCount.
      split; [lia|]. split; [reflexivity|]. split; [discriminate|].
      split; [exact Hworld|]. split; discriminate.
    + destruct (Hreport eq_refl) as [Hrep Hboth].
      destruct (Full.mutated a) eqn:Hm; simpl saveCount; simpl settings.
      * split; [lia|]. split; [congruence|]. split; [intros _ Hsave; lia|].
        split; [exact Hworld|]. split; [intros _; exact Hrep|intros _; exact Hboth].
      * destruct (Hmut eq_refl) as [Hst Hdel].
        split; [lia|]. split; [reflexivity|]. split; [intros _ _; split; assumption|].
        split; [exact Hworld|]. split; [intros _; exact Hrep|intros _; exact Hboth].
Qed.

(** What a rejected clearing does. After a delete that was answered
    not-found it leaves the pass, the path already counted as deleted;
    after a resolved delete it is caught, and when it is not itself
    not-found the path is counted as failed as well. *)
Lemma rejected_clear (path : string) (rejection : Thrown) (a : Full.Pass) :
  clearRejection (Full.world a) path = Some rejection ->
  (forall error,
      isConfluenceNotFound error = true ->
      let a1 := Full.settleDelete clearRejection path (Some error) a in
      Full.escaped a1 = Some rejection
      /\ Full.deletedPaths a1 = Full.deletedPaths a ++ [path])
  /\ (isConfluenceNotFound rejection = false ->
      let a1 := Full.settleDelete clearRejection path None a in
      Full.escaped a1 = Full.escaped a
      /\ Full.deletedPaths a1 = Full.deletedPaths a ++ [path]
      /\ Full.failedDeletions a1
         = Full.failedDeletions a ++ [(path, failureReason rejection)]).
Proof.
  intros Hclear. split.
  - intros error Hfound. unfold Full.settleDelete, Full.catch, Full.dropAndClear.
    rewrite Hfound, Hclear. split; reflexivity.
  - intros Hother. unfold Full.settleDelete, Full.catch, Full.dropAndClear.
    rewrite Hclear, Hother. repeat split.
Qed.

(** Where [clearConfluencePageId] never rejects, the sweep of this
    section is the sweep of the first embedding. *)
Lemma sweepEntry_agrees (a : Full.Pass) (b : Sweep) (x : string * string) :
  (forall w path, clearRejection w path = None) ->
  Full.agrees a b -> Full.agrees (Full.sweepEntry clearRejection a x) (sweepEntry b x).
Proof.
  intros Hclear (Hesc & Hout & Hcalls). destruct x as [k v].
  unfold sweepOutcome in Hout. inversion Hout as [[Hst Hdel Hfail Hmut Hw]].
  unfold Full.sweepEntry, sweepEntry, Full.agrees, sweepOutcome. rewrite Hesc, Hw.
  destruct (v =? "").
  - simpl. rewrite Hesc, Hst, Hdel, Hfail, Hw, Hcalls. auto.
  - destruct (deleteContent (sweepWorld b) v) as [w1 [error|]];
      unfold Full.settleDelete, Full.catch, Full.dropAndClear, settleDelete, dropDeleted;
      simpl; [destruct (isConfluenceNotFound error)|]; rewrite ?Hclear; simpl;
      rewrite ?deletesOf_app, Hesc, Hst, Hdel, Hfail, ?Hmut, Hcalls; simpl;
      rewrite ?app_nil_r; auto.
Qed.

Lemma fold_left_related {A A' B : Type} (f : A -> B -> A) (g : A' -> B -> A')
    (R : A -> A' -> Prop) :
  (forall a b x, R a b -> R (f a x) (g b x)) ->
  forall l a b, R a b -> R (fold_left f l a) (fold_left g l b).
Proof.
  intros Hstep l. induction l as [|x l IH]; simpl; intros a b Hab; [exact Hab|].
  apply IH. now apply Hstep.
Qed.

Lemma full_sweep_agrees (eligible : StrSet.t) (p : Plugin) (w : World) :
  (forall w path, clearRejection w path = None) ->
  let full := Full.removeBacklinkOrphans clearRejection eligible p w in
  let r := removeBacklinkOrphans eligible p w in
  fst full = fst r /\ Full.agrees (snd full) (snd r).
Proof.
  intros Hclear full r. subst full r.
  unfold Full.removeBacklinkOrphans, removeBacklinkOrphans.
  assert (Hstart : Full.agrees (Full.start (backlinkPublishState (settings p)) w)
                     (sweepStart (backlinkPublishState (settings p)) w))
    by (repeat split).
  destruct (staleEntriesOf _ eligible) as [|e l]; [split; [reflexivity|exact Hstart]|].
  destruct (confluenceClient p); cbn [negb]; [|split; [reflexivity|exact Hstart]].
  pose proof (fold_left_related (Full.sweepEntry clearRejection) sweepEntry Full.agrees
                (fun a b x => sweepEntry_agrees a b x Hclear) (e :: l) _ _ Hstart) as Hloop.
  destruct Hloop as (Hesc & Hout & Hcalls).
  unfold sweepOutcome in Hout. inversion Hout as [[Hst Hdel Hfail Hmut Hw]].
  cbn [fold_left] in *. rewrite Hesc. cbn [fst snd]. rewrite Hst, Hmut.
  split; [reflexivity|]. repeat split; assumption.
Qed.

End FullSweep.



(** The same sweep in full: the page of [Old/z.md] is deleted, then the
    clearing of its page id is rejected inside the [try]; the path is
    reported among the deleted and among the failed ones. *)
Lemma rejected_clear_is_reported_twice :
  let r := Full.removeBacklinkOrphans (H := Sample.recording) Sample.clearRejection
             ["Docs/a.md"] Demo.stalePages [] in
  Full.calls (snd r)
  = [Full.DeleteCall "Old/x.md" "gone" (Some (HTTPError 404 "no such page"));
     Full.ClearCall "Old/x.md" None;
     Full.DeleteCall "Old/y.md" "locked" (Some (Obj true
       {| statusCode := None; message := Some "Forbidden"; body_statusCode := None;
          response_status := None; response_data_statusCode := None |}));
     Full.DeleteCall "Old/z.md" "9" None;
     Full.ClearCall "Old/z.md" (Some Sample.noSuchNote)]
  /\ Full.deletedPaths (snd r) = ["Old/x.md"; "Old/z.md"]
  /\ Full.failedDeletions (snd r)
     = [("Old/y.md", "Forbidden"); ("Old/z.md", "File not found in vault")]
  /\ backlinkPublishState (settings (fst r))
     = [("Docs/a.md", "7"); ("Old/y.md", "locked")]
  /\ saveCount (fst r) = 1.
Proof.
  repeat split.
Qed.
